(** * The idea-list parser of the trip-ideation handler

    A shallow embedding of [parse_ideas_response]
    (src/lambda_ideation/app.py) and the properties its specification
    states about it, followed by further properties of the parser and of
    the formatters of the prompt, [format_knowledge_context] and
    [format_preferences].

    Python text is modelled as the list of its Unicode code points, the
    string methods the parser calls are written out as list functions, the
    [try]/[except] of the parser is an error type with an explicit handler,
    and the module logger is a log that is threaded through the call. *)

From Stdlib Require Import Ascii String List NArith ZArith Bool Lia.
From Stdlib Require Import DecimalString Permutation.
Import ListNotations.

Local Open Scope N_scope.
Local Open Scope list_scope.

(** ** Python [str] *)

Module PyStr.

(** A character is a code point, a [str] is a list of them. *)
Definition char : Type := N.
Definition pystr : Type := list char.

(** A literal of the source, given as an ASCII string. *)
Definition str (s : string) : pystr :=
  map N_of_ascii (list_ascii_of_string s).

Definition colon : char := 58.
Definition dash : char := 45.
Definition newline : char := 10.
Definition space : char := 32.

(** [bool(s)]: a string is true when it is not empty. *)
Definition truthy (s : pystr) : bool :=
  match s with
  | [] => false
  | _ :: _ => true
  end.

(** [c.isspace()], the characters [strip()] removes: the ASCII controls
    TAB to CR and FS to US, the space, NEL, NBSP and the Unicode
    separators. *)
Definition isspace (c : char) : bool :=
  ((9 <=? c) && (c <=? 13))
  || ((28 <=? c) && (c <=? 32))
  || (c =? 133) || (c =? 160) || (c =? 5760)
  || ((8192 <=? c) && (c <=? 8202))
  || (c =? 8232) || (c =? 8233) || (c =? 8239) || (c =? 8287)
  || (c =? 12288).

Fixpoint lstrip (s : pystr) : pystr :=
  match s with
  | [] => []
  | c :: s' => if isspace c then lstrip s' else s
  end.

Definition rstrip (s : pystr) : pystr := rev (lstrip (rev s)).

(** [s.strip()] *)
Definition strip (s : pystr) : pystr := rstrip (lstrip s).

(** [s.startswith(p)] *)
Fixpoint startswith (s p : pystr) {struct p} : bool :=
  match p, s with
  | [], _ => true
  | _ :: _, [] => false
  | a :: p', c :: s' => (c =? a) && startswith s' p'
  end.

(** [s.startswith((p1, ..., pn))] *)
Definition startswith_any (s : pystr) (ps : list pystr) : bool :=
  existsb (startswith s) ps.

(** [c in s] for a one-character [c] *)
Definition contains (c : char) (s : pystr) : bool :=
  existsb (N.eqb c) s.

(** The text before the first [sep] and, when there is one, the text
    after it. *)
Fixpoint cut (sep : char) (s : pystr) : pystr * option pystr :=
  match s with
  | [] => ([], None)
  | c :: s' =>
      if c =? sep then ([], Some s')
      else let (h, t) := cut sep s' in (c :: h, t)
  end.

(** [s.split(sep, 1)]: one element when [sep] does not occur, else two. *)
Definition split1 (sep : char) (s : pystr) : list pystr :=
  match cut sep s with
  | (h, None) => [h]
  | (h, Some t) => [h; t]
  end.

(** [s.split(sep)]: never empty. *)
Fixpoint split (sep : char) (s : pystr) : list pystr :=
  match s with
  | [] => [[]]
  | c :: s' =>
      if c =? sep then [] :: split sep s'
      else match split sep s' with
           | h :: t => (c :: h) :: t
           | [] => [[c]]
           end
  end.

(** The lower-case form of one character.  ASCII capitals map to their
    small letters.  Two characters beyond ASCII have a lower-case form
    that begins with an ASCII letter: U+0130 (capital I with dot above,
    lower-cased to i followed by U+0307) and U+212A (the Kelvin sign,
    lower-cased to k).  Every other character beyond ASCII has a
    lower-case form made of characters beyond ASCII and is kept as it is:
    the parser compares lower-cased text with ASCII prefixes only, which
    neither form can match. *)
Definition lower_char (c : char) : pystr :=
  if (65 <=? c) && (c <=? 90) then [c + 32]
  else if c =? 304 then [105; 775]
  else if c =? 8490 then [107]
  else [c].

(** [s.lower()] *)
Definition lower (s : pystr) : pystr := flat_map lower_char s.

(** [s[1:]] *)
Definition from1 (s : pystr) : pystr := tl s.

End PyStr.
Import PyStr.

(** ** Exceptions *)

Inductive exn : Type :=
| IndexError.

(** A computation of the [try] block: an exception or a value. *)
Definition result (A : Type) : Type := (exn + A)%type.

Definition ret {A : Type} (a : A) : result A := inr a.
Definition raise {A : Type} (e : exn) : result A := inl e.

Definition bind {A B : Type} (m : result A) (k : A -> result B) : result B :=
  match m with
  | inl e => inl e
  | inr a => k a
  end.

Notation "x <- m ;; k" := (bind m (fun x => k))
  (at level 61, m at next level, right associativity).

(** [l[i]] *)
Definition index {A : Type} (l : list A) (i : nat) : result A :=
  match nth_error l i with
  | Some a => ret a
  | None => raise IndexError
  end.

(** [str(e)] *)
Definition exn_str (e : exn) : pystr :=
  match e with
  | IndexError => str "list index out of range"
  end.

(** ** The parser *)

(** One idea: the dictionary with the keys [title], [description],
    [highlights] and [duration]. *)
Record Idea : Type := mkIdea {
  title : pystr;
  description : pystr;
  highlights : list pystr;
  duration : pystr
}.

Definition set_description (i : Idea) (d : pystr) : Idea :=
  mkIdea (title i) d (highlights i) (duration i).

Definition set_duration (i : Idea) (d : pystr) : Idea :=
  mkIdea (title i) (description i) (highlights i) d.

(** [i['highlights'].append(h)] *)
Definition append_highlight (i : Idea) (h : pystr) : Idea :=
  mkIdea (title i) (description i) (highlights i ++ [h]) (duration i).

(** The idea a block starts with. *)
Definition new_idea (t : pystr) : Idea := mkIdea t [] [] [].

(** The record returned when nothing was parsed. *)
Definition fallback (response : pystr) : Idea :=
  mkIdea (str "Travel Recommendations") (strip response) [] [].

(** The variables of the loop: [ideas] and [current_idea]. *)
Definition state : Type := (list Idea * option Idea)%type.

Definition init : state := ([], None).

Definition numbered : list pystr :=
  [str "1."; str "2."; str "3."; str "4."; str "5."].

(** [line.startswith(('1.', '2.', '3.', '4.', '5.')) and ':' in line] *)
Definition opens_block (line : pystr) : bool :=
  startswith_any line numbered && contains colon line.

(** [if current_idea and current_idea.get('title'): ideas.append(current_idea)] *)
Definition flush (st : state) : list Idea :=
  match snd st with
  | Some c => if truthy (title c) then fst st ++ [c] else fst st
  | None => fst st
  end.

(** The title of the block a line opens. *)
Definition block_title (line : pystr) : result pystr :=
  let title_parts := split1 colon line in
  if Nat.ltb 1 (length title_parts)
  then (t <- index title_parts 1 ;; ret (strip t))
  else ret line.

(** The labelled components, tried in the order of the source, for a line
    that opens no block while an idea is in progress. *)
Definition component (c : Idea) (line : pystr) : result Idea :=
  if startswith (lower line) (str "description:") then
    d <- index (split1 colon line) 1 ;;
    ret (set_description c (strip d))
  else if startswith (lower line) (str "highlight") then
    highlight <- (if contains colon line
                  then (h <- index (split1 colon line) 1 ;; ret (strip h))
                  else ret line) ;;
    ret (append_highlight c highlight)
  else if startswith (lower line) (str "duration:") then
    d <- index (split1 colon line) 1 ;;
    ret (set_duration c (strip d))
  else if truthy (description c) && negb (startswith line [dash]) then
    ret (set_description c (description c ++ [space] ++ line))
  else if startswith line [dash] then
    ret (append_highlight c (strip (from1 line)))
  else
    ret c.

(** The body of the loop for a line that is not empty once stripped. *)
Definition dispatch (st : state) (line : pystr) : result state :=
  if opens_block line then
    let ideas := flush st in
    t <- block_title line ;;
    ret (ideas, Some (new_idea t))
  else
    match snd st with
    | Some c => c' <- component c line ;; ret (fst st, Some c')
    | None => ret st
    end.

(** One iteration of the loop. *)
Definition process_line (st : state) (raw : pystr) : result state :=
  let line := strip raw in
  if truthy line then dispatch st line else ret st.

(** The loop. *)
Fixpoint for_lines (st : state) (lines : list pystr) : result state :=
  match lines with
  | [] => ret st
  | raw :: rest => st' <- process_line st raw ;; for_lines st' rest
  end.

(** The lines the loop runs over. *)
Definition lines_of (response : pystr) : list pystr :=
  split newline (strip response).

(** The loop and the flush of the last idea. *)
Definition collect (lines : list pystr) : result (list Idea) :=
  st <- for_lines init lines ;; ret (flush st).

(** The [try] block. *)
Definition parse_body (response : pystr) : result (list Idea) :=
  ideas <- collect (lines_of response) ;;
  match ideas with
  | [] => ret [fallback response]
  | _ :: _ => ret ideas
  end.

(** The module logger: the messages logged at level error. *)
Definition Log : Type := list pystr.

(** The [except] block. *)
Definition handler (response : pystr) (e : exn) (log : Log) : Log * list Idea :=
  (log ++ [str "Error parsing ideas response: " ++ exn_str e],
   [fallback response]).

(** [parse_ideas_response(response)], run with the log of the logger. *)
Definition parse_ideas_response (response : pystr) (log : Log)
  : Log * list Idea :=
  match parse_body response with
  | inr ideas => (log, ideas)
  | inl e => handler response e log
  end.

(** The example of the specification. *)
Definition nl : pystr := [newline].

Definition example_input : pystr :=
  str "1. Coastal Road Trip: Scenic drives" ++ nl ++
  str "Description: Drive along the coast visiting small towns." ++ nl ++
  str "Highlight: Lighthouse at sunset" ++ nl ++
  str "- Local seafood tasting" ++ nl ++
  str "Duration: 5 days" ++ nl ++
  str "2. Mountain Retreat: Peaceful cabins" ++ nl ++
  str "Description: Stay in a secluded cabin." ++ nl ++
  str "Duration: 3 days".

Definition example_output : list Idea :=
  [ mkIdea (str "Scenic drives")
           (str "Drive along the coast visiting small towns.")
           [str "Lighthouse at sunset"; str "Local seafood tasting"]
           (str "5 days");
    mkIdea (str "Peaceful cabins")
           (str "Stay in a secluded cabin.")
           []
           (str "3 days") ].

(** ** Notions the properties are stated with *)

(** The text after the first colon of a line, empty without a colon. *)
Definition after_colon (line : pystr) : pystr :=
  match cut colon line with
  | (_, Some t) => t
  | (_, None) => []
  end.

(** The title a block-opening line gives: the text after its first colon,
    trimmed. *)
Definition opening_title (line : pystr) : pystr := strip (after_colon line).

(** The titles of the blocks a text opens, in the order of their opening
    lines, without the empty ones. *)
Definition opening_titles (lines : list pystr) : list pystr :=
  filter truthy (map opening_title (filter opens_block (map strip lines))).

(** A line opens a new block: whatever the state, the idea in progress is
    flushed and a new idea, with only a title, takes its place. *)
Definition opens_new_block (line : pystr) : Prop :=
  exists t, forall st, dispatch st line = inr (flush st, Some (new_idea t)).

(** A line opens no block: the ideas collected so far stay as they are, no
    idea is started and the idea in progress keeps its title. *)
Definition keeps_block (line : pystr) : Prop :=
  forall ideas cur, exists cur',
    dispatch (ideas, cur) line = inr (ideas, cur')
    /\ option_map title cur' = option_map title cur.

(** The title of the idea in progress once [line] is processed in [st]. *)
Definition title_after (st : state) (line : pystr) : option pystr :=
  match dispatch st line with
  | inr (_, Some c) => Some (title c)
  | _ => None
  end.

(** The title waiting in the loop state to be flushed. *)
Definition pending (cur : option Idea) : list pystr :=
  match option_map title cur with
  | Some t => [t]
  | None => []
  end.

(** The rest of a text begins a block or is empty. *)
Definition at_block_boundary (rest : list pystr) : Prop :=
  match rest with
  | [] => True
  | o :: _ => opens_block (strip o) = true
  end.

(** The text [part] occurs in the text [s]. *)
Definition occurs_in (part s : pystr) : Prop :=
  exists before after, s = before ++ part ++ after.

(** The text [part] occurs in a field of one of the records. *)
Definition appears_in (part : pystr) (ideas : list Idea) : Prop :=
  exists i, In i ideas
    /\ (occurs_in part (title i) \/ occurs_in part (description i)
        \/ (exists h, In h (highlights i) /\ occurs_in part h)
        \/ occurs_in part (duration i)).

(** ** Notions for further properties of the parser *)

(** [", ".join(l)] and the like: the texts of [l] with [sep] between them. *)
Fixpoint join (sep : pystr) (l : list pystr) : pystr :=
  match l with
  | [] => []
  | [s] => s
  | s :: rest => s ++ sep ++ join sep rest
  end.

(** A line that opens no block, carries no label and is no bullet. *)
Definition unlabelled (line : pystr) : bool :=
  negb (opens_block line)
  && negb (startswith (lower line) (str "description:"))
  && negb (startswith (lower line) (str "highlight"))
  && negb (startswith (lower line) (str "duration:"))
  && negb (startswith line (str "-")).

(** A text without white space at either end. *)
Definition trimmed (s : pystr) : Prop := strip s = s.

(** A record whose texts are all trimmed. *)
Definition idea_trimmed (i : Idea) : Prop :=
  trimmed (title i) /\ trimmed (description i)
  /\ Forall trimmed (highlights i) /\ trimmed (duration i).

(** The lines of a text that the loop does not skip and that open a
    block. *)
Definition opening_lines (lines : list pystr) : list pystr :=
  filter opens_block (map strip lines).

(** The loop state holds trimmed texts only. *)
Definition state_trimmed (st : state) : Prop :=
  Forall idea_trimmed (fst st)
  /\ match snd st with
     | Some c => idea_trimmed c
     | None => True
     end.

(** ** The formatters of the prompt *)

(** [s == t] on texts. *)
Fixpoint str_eqb (s t : pystr) : bool :=
  match s, t with
  | [], [] => true
  | a :: s', b :: t' => (a =? b) && str_eqb s' t'
  | _, _ => false
  end.

(** [s.replace('_', ' ')] *)
Definition underscores_to_spaces (s : pystr) : pystr :=
  map (fun c => if c =? 95 then space else c) s.

(** The exception of [", ".join(v)] for a value that is no sequence of
    texts. *)
Inductive type_error : Type :=
| TypeError.

(** The values of a request are dynamic: a text, a number, a list, ...
    The formatters use them through the operations below and through
    [key.title()] on texts, which follows the Unicode tables. *)
Class Runtime (value : Type) : Type := {
  (** [bool(v)] *)
  truth : value -> bool;
  (** [f"{v}"] *)
  fmt : value -> pystr;
  (** [", ".join(v)] *)
  comma_join : value -> type_error + pystr;
  (** [isinstance(v, list)] *)
  is_list : value -> bool;
  (** [s.title()] *)
  title_case : pystr -> pystr
}.

(** A dictionary with text keys, in insertion order. *)
Definition dict (value : Type) : Type := list (pystr * value).

(** [d.get(k)] *)
Fixpoint get {value : Type} (d : dict value) (k : pystr) : option value :=
  match d with
  | [] => None
  | (k', v) :: d' => if str_eqb k' k then Some v else get d' k
  end.

(** The keys of a dictionary are distinct. *)
Definition well_formed {value : Type} (d : dict value) : Prop :=
  NoDup (map fst d).

Section Formatters.

Context {value : Type} `{Runtime value}.

(** The line of one knowledge item: [f"- {result.get('content', '')}"]. *)
Definition knowledge_item (result : dict value) : pystr :=
  str "- " ++ match get result (str "content") with
              | Some v => fmt v
              | None => []
              end.

(** [format_knowledge_context(kb_results)] *)
Definition format_knowledge_context (kb_results : list (dict value)) : pystr :=
  match kb_results with
  | [] => str "No specific travel knowledge available."
  | _ :: _ => join (nl ++ nl) (map knowledge_item kb_results)
  end.

Definition known_keys : list pystr :=
  [str "budget"; str "accommodation_type"; str "trip_duration";
   str "interests"; str "travel_style"; str "dietary_restrictions"].

(** [key in [...]] for the six known keys *)
Definition known (key : pystr) : bool := existsb (str_eqb key) known_keys.

(** [if preferences.get(key): items.append(f"{label}{preferences[key]}")] *)
Definition scalar_item (preferences : dict value) (key label : pystr)
    (items : list pystr) : list pystr :=
  match get preferences key with
  | Some v => if truth v then items ++ [label ++ fmt v] else items
  | None => items
  end.

(** [if preferences.get(key):
       items.append(f"{label}{', '.join(preferences[key])}")] *)
Definition joined_item (preferences : dict value) (key label : pystr)
    (items : list pystr) : type_error + list pystr :=
  match get preferences key with
  | Some v =>
      if truth v then
        match comma_join v with
        | inr joined => inr (items ++ [label ++ joined])
        | inl e => inl e
        end
      else inr items
  | None => inr items
  end.

(** The loop over [preferences.items()] for the other keys. *)
Fixpoint other_items (entries : dict value) (items : list pystr)
    : type_error + list pystr :=
  match entries with
  | [] => inr items
  | (key, v) :: rest =>
      if negb (known key) then
        let label := title_case (underscores_to_spaces key) ++ str ": " in
        if is_list v then
          match comma_join v with
          | inr value_str => other_items rest (items ++ [label ++ value_str])
          | inl e => inl e
          end
        else other_items rest (items ++ [label ++ fmt v])
      else other_items rest items
  end.

(** [format_preferences(preferences)] *)
Definition format_preferences (preferences : dict value)
    : type_error + pystr :=
  match preferences with
  | [] => inr (str "No specific preferences provided.")
  | _ :: _ =>
      let items := [] in
      let items := scalar_item preferences (str "budget") (str "Budget: ") items in
      let items := scalar_item preferences (str "accommodation_type")
                     (str "Accommodation Type: ") items in
      let items := scalar_item preferences (str "trip_duration")
                     (str "Trip Duration: ") items in
      match joined_item preferences (str "interests") (str "Interests: ") items with
      | inl e => inl e
      | inr items =>
          let items := scalar_item preferences (str "travel_style")
                         (str "Travel Style: ") items in
          match joined_item preferences (str "dietary_restrictions")
                  (str "Dietary Restrictions: ") items with
          | inl e => inl e
          | inr items =>
              match other_items preferences items with
              | inl e => inl e
              | inr items => inr (join nl items)
              end
          end
      end
  end.

End Formatters.

(** A value that [", ".join] accepts. *)
Definition joinable {value : Type} `{Runtime value} (v : value) : Prop :=
  exists joined, comma_join v = inr joined.

(** Every value the formatter joins can be joined: the values of
    "interests" and "dietary_restrictions" when they are true, and the
    lists under the other keys. *)
Definition joins_fine {value : Type} `{Runtime value}
    (preferences : dict value) : Prop :=
  (forall v, get preferences (str "interests") = Some v ->
             truth v = true -> joinable v)
  /\ (forall v, get preferences (str "dietary_restrictions") = Some v ->
                truth v = true -> joinable v)
  /\ Forall (fun kv => known (fst kv) = false -> is_list (snd kv) = true ->
                       joinable (snd kv))
            preferences.

(** [s.title()] on ASCII text: a letter is made a capital after a
    character that is no letter, and a small letter after a letter. *)
Fixpoint ascii_title_from (after_letter : bool) (s : pystr) : pystr :=
  match s with
  | [] => []
  | c :: s' =>
      if (65 <=? c) && (c <=? 90) then
        (if after_letter then c + 32 else c) :: ascii_title_from true s'
      else if (97 <=? c) && (c <=? 122) then
        (if after_letter then c else c - 32) :: ascii_title_from true s'
      else c :: ascii_title_from false s'
  end.

(** The values of a request that are texts or whole numbers. *)
Inductive scalar : Type :=
| Text (s : pystr)
| Int (n : Z).

(** Requests with such values and ASCII keys.  A text is true when it is
    not empty, is formatted as it is and is joined character by character;
    a number is true when it is not zero, is formatted in decimal and
    cannot be joined.  Neither is a list. *)
#[export] Instance scalar_runtime : Runtime scalar := {
  truth := fun v => match v with
                    | Text s => truthy s
                    | Int n => negb (Z.eqb n 0)
                    end;
  fmt := fun v => match v with
                  | Text s => s
                  | Int n => str (NilZero.string_of_int (Z.to_int n))
                  end;
  comma_join := fun v => match v with
                         | Text s => inr (join (str ", ") (map (fun c => [c]) s))
                         | Int _ => inl TypeError
                         end;
  is_list := fun _ => false;
  title_case := ascii_title_from false
}.

(** [BedrockClient.invoke_model], seen from its caller.  [attempt] is the
    outcome of its [try] block, which sends the request and reads the
    answer: the generated text, or the message [str(e)] of the exception
    raised there. *)
Definition invoke_model (attempt : pystr + pystr) : pystr :=
  match attempt with
  | inr generated_text => generated_text
  | inl message => str "Error generating response: " ++ message
  end.

Lemma example_runs : forall log,
  parse_ideas_response example_input log = (log, example_output).
Proof. intro log. vm_compute. reflexivity. Qed.

(** ** Facts about the string methods *)

Section StringFacts.

Lemma contains_In : forall c s, contains c s = true <-> In c s.
Proof.
  intros c s. unfold contains. rewrite existsb_exists. split.
  - intros [x [Hin Heq]]. apply N.eqb_eq in Heq. now subst.
  - intro Hin. exists c. split; [assumption | apply N.eqb_refl].
Qed.

Lemma contains_false : forall c s, contains c s = false <-> ~ In c s.
Proof.
  intros c s. rewrite <- contains_In. destruct (contains c s); split; congruence.
Qed.

Lemma startswith_app : forall p r, startswith (p ++ r) p = true.
Proof.
  induction p as [|a p IH]; intro r; simpl; [reflexivity|].
  now rewrite N.eqb_refl, IH.
Qed.

Lemma startswith_inv : forall p s,
  startswith s p = true -> exists r, s = p ++ r.
Proof.
  induction p as [|a p IH]; intros s H.
  - exists s. reflexivity.
  - destruct s as [|c s]; simpl in H; [discriminate|].
    apply andb_true_iff in H. destruct H as [Hc Hs].
    apply N.eqb_eq in Hc. subst c.
    destruct (IH _ Hs) as [r ->]. now exists r.
Qed.

Lemma startswith_iff : forall p s,
  startswith s p = true <-> exists r, s = p ++ r.
Proof.
  intros p s. split; [apply startswith_inv|].
  intros [r ->]. apply startswith_app.
Qed.

Lemma startswith_any_iff : forall s ps,
  startswith_any s ps = true <-> exists p r, In p ps /\ s = p ++ r.
Proof.
  intros s ps. unfold startswith_any. rewrite existsb_exists. split.
  - intros [p [Hin H]]. apply startswith_inv in H. destruct H as [r ->].
    now exists p, r.
  - intros [p [r [Hin ->]]]. exists p. split; [assumption | apply startswith_app].
Qed.

(** [cut] finds the first separator. *)
Lemma cut_app : forall sep h t,
  ~ In sep h -> cut sep (h ++ sep :: t) = (h, Some t).
Proof.
  induction h as [|c h IH]; intros t Hn; simpl.
  - now rewrite N.eqb_refl.
  - destruct (N.eqb_spec c sep) as [->|Hne].
    + exfalso. apply Hn. now left.
    + rewrite IH; [reflexivity|]. intro Hin. apply Hn. now right.
Qed.

Lemma cut_none : forall sep s, ~ In sep s -> cut sep s = (s, None).
Proof.
  induction s as [|c s IH]; intro Hn; simpl; [reflexivity|].
  destruct (N.eqb_spec c sep) as [->|Hne].
  - exfalso. apply Hn. now left.
  - rewrite IH; [reflexivity|]. intro Hin. apply Hn. now right.
Qed.

Lemma first_sep : forall (sep : char) (s : pystr),
  In sep s -> exists h t, s = h ++ sep :: t /\ ~ In sep h.
Proof.
  induction s as [|c s IH]; intro Hin; [contradiction|].
  destruct (N.eqb_spec c sep) as [->|Hne].
  - exists (@nil char), s. split; [reflexivity | intro H; exact H].
  - destruct Hin as [Heq|Hin]; [congruence|].
    destruct (IH Hin) as [h [t [-> Hn]]].
    exists (c :: h), t. split; [reflexivity|].
    intros [Heq|Hh]; [congruence | contradiction].
Qed.

Lemma split1_app : forall sep h t,
  ~ In sep h -> split1 sep (h ++ sep :: t) = [h; t].
Proof. intros sep h t Hn. unfold split1. now rewrite cut_app. Qed.

Lemma split1_none : forall sep s, ~ In sep s -> split1 sep s = [s].
Proof. intros sep s Hn. unfold split1. now rewrite cut_none. Qed.

(** With a separator in the text, [split(sep, 1)[1]] is there. *)
Lemma index_split1 : forall sep s,
  In sep s -> exists t, index (split1 sep s) 1 = inr t.
Proof.
  intros sep s Hin. destruct (first_sep _ _ Hin) as [h [t [-> Hn]]].
  exists t. now rewrite split1_app.
Qed.

(** Lower-casing neither creates nor removes a colon. *)
Lemma lower_char_colon : forall c, In colon (lower_char c) -> c = colon.
Proof.
  intros c. unfold lower_char, colon.
  destruct ((65 <=? c) && (c <=? 90)) eqn:Hcap.
  - apply andb_true_iff in Hcap. destruct Hcap as [H1 H2].
    apply N.leb_le in H1. simpl. intros [H|[]]. lia.
  - destruct (N.eqb_spec c 304); [simpl; intros [H|[H|[]]]; discriminate|].
    destruct (N.eqb_spec c 8490); [simpl; intros [H|[]]; discriminate|].
    simpl. intros [H|[]]. congruence.
Qed.

Lemma lower_colon : forall s, In colon (lower s) -> In colon s.
Proof.
  intros s H. unfold lower in H. apply in_flat_map in H.
  destruct H as [c [Hin Hc]]. apply lower_char_colon in Hc. now subst.
Qed.

Lemma labelled_has_colon : forall line label,
  In colon label -> startswith (lower line) label = true -> In colon line.
Proof.
  intros line label Hl H. apply lower_colon.
  apply startswith_inv in H. destruct H as [r ->].
  apply in_or_app. now left.
Qed.

Lemma truthy_nil : forall s, truthy s = false <-> s = [].
Proof. intros [|c s]; simpl; split; congruence. Qed.

Lemma truthy_true : forall s, truthy s = true <-> s <> [].
Proof. intros [|c s]; simpl; split; congruence. Qed.

End StringFacts.

(** ** The [try] block raises nothing *)

Section NoException.

Lemma block_title_colon : forall line,
  In colon line -> block_title line = inr (opening_title line).
Proof.
  intros line Hin. destruct (first_sep _ _ Hin) as [h [t [-> Hn]]].
  unfold block_title, opening_title, after_colon.
  rewrite split1_app by assumption. rewrite cut_app by assumption.
  reflexivity.
Qed.

Lemma block_title_no_colon : forall line,
  ~ In colon line -> block_title line = inr line.
Proof.
  intros line Hn. unfold block_title. now rewrite split1_none.
Qed.

Lemma block_title_opens : forall line,
  opens_block line = true -> block_title line = inr (opening_title line).
Proof.
  intros line H. unfold opens_block in H. apply andb_true_iff in H.
  apply block_title_colon. apply contains_In. tauto.
Qed.

Lemma index_labelled : forall line label,
  contains colon label = true ->
  startswith (lower line) label = true ->
  index (split1 colon line) 1 = inr (after_colon line).
Proof.
  intros line label Hl H.
  assert (Hin : In colon line).
  { apply labelled_has_colon with label; [now apply contains_In | assumption]. }
  destruct (first_sep _ _ Hin) as [h [t [-> Hn]]].
  unfold after_colon. rewrite split1_app, cut_app by assumption. reflexivity.
Qed.

Lemma index_contains : forall line,
  contains colon line = true ->
  index (split1 colon line) 1 = inr (after_colon line).
Proof.
  intros line H. apply contains_In in H.
  destruct (first_sep _ _ H) as [h [t [-> Hn]]].
  unfold after_colon. rewrite split1_app, cut_app by assumption. reflexivity.
Qed.

(** A component line gives a new value to the idea in progress, with the
    title it had. *)
Lemma component_ok : forall c line,
  exists c', component c line = inr c' /\ title c' = title c.
Proof.
  intros c line. unfold component.
  destruct (startswith (lower line) (str "description:")) eqn:Hd.
  { rewrite (index_labelled line (str "description:") eq_refl Hd). simpl. eauto. }
  destruct (startswith (lower line) (str "highlight")) eqn:Hh.
  { destruct (contains colon line) eqn:Hc.
    - rewrite (index_contains _ Hc). simpl. eauto.
    - simpl. eauto. }
  destruct (startswith (lower line) (str "duration:")) eqn:Hu.
  { rewrite (index_labelled line (str "duration:") eq_refl Hu). simpl. eauto. }
  destruct (truthy (description c) && negb (startswith line [dash])).
  { simpl. eauto. }
  destruct (startswith line [dash]); simpl; eauto.
Qed.

Lemma dispatch_opening : forall st line,
  opens_block line = true ->
  dispatch st line = inr (flush st, Some (new_idea (opening_title line))).
Proof.
  intros st line H. unfold dispatch. rewrite H.
  now rewrite (block_title_opens _ H).
Qed.

Lemma dispatch_other : forall ideas cur line,
  opens_block line = false ->
  exists cur', dispatch (ideas, cur) line = inr (ideas, cur')
               /\ option_map title cur' = option_map title cur.
Proof.
  intros ideas cur line H. unfold dispatch. rewrite H. simpl.
  destruct cur as [c|].
  - destruct (component_ok c line) as [c' [-> Ht]]. simpl.
    exists (Some c'). simpl. now rewrite Ht.
  - exists None. split; reflexivity.
Qed.

Lemma dispatch_ok : forall st line, exists st', dispatch st line = inr st'.
Proof.
  intros [ideas cur] line. destruct (opens_block line) eqn:H.
  - rewrite dispatch_opening by assumption. eauto.
  - destruct (dispatch_other ideas cur line H) as [cur' [-> _]]. eauto.
Qed.

Lemma process_line_ok : forall st raw, exists st', process_line st raw = inr st'.
Proof.
  intros st raw. unfold process_line.
  destruct (truthy (strip raw)); [apply dispatch_ok | now exists st].
Qed.

Lemma for_lines_ok : forall lines st, exists st', for_lines st lines = inr st'.
Proof.
  induction lines as [|raw rest IH]; intro st; simpl.
  - now exists st.
  - destruct (process_line_ok st raw) as [st1 ->]. simpl. apply IH.
Qed.

Lemma collect_ok : forall lines, exists ideas, collect lines = inr ideas.
Proof.
  intro lines. unfold collect.
  destruct (for_lines_ok lines init) as [st ->]. simpl. eauto.
Qed.

Lemma parse_body_ok : forall response,
  exists ideas, parse_body response = inr ideas /\ ideas <> [].
Proof.
  intro response. unfold parse_body.
  destruct (collect_ok (lines_of response)) as [ideas ->]. simpl.
  destruct ideas as [|i ideas].
  - exists [fallback response]. split; [reflexivity | discriminate].
  - exists (i :: ideas). split; [reflexivity | discriminate].
Qed.

End NoException.

(** ** The loop, line by line *)

Section Loop.

Lemma opens_block_nil : opens_block [] = false.
Proof. reflexivity. Qed.

Lemma opens_block_truthy : forall line,
  opens_block line = true -> truthy line = true.
Proof. intros [|c line] H; [discriminate | reflexivity]. Qed.

Lemma process_line_opening : forall st raw,
  opens_block (strip raw) = true ->
  process_line st raw
  = inr (flush st, Some (new_idea (opening_title (strip raw)))).
Proof.
  intros st raw H. unfold process_line.
  rewrite (opens_block_truthy _ H). now apply dispatch_opening.
Qed.

Lemma process_line_other : forall ideas cur raw,
  opens_block (strip raw) = false ->
  exists cur', process_line (ideas, cur) raw = inr (ideas, cur')
               /\ option_map title cur' = option_map title cur.
Proof.
  intros ideas cur raw H. unfold process_line.
  destruct (truthy (strip raw)).
  - now apply dispatch_other.
  - exists cur. split; reflexivity.
Qed.

Lemma for_lines_app : forall a b st,
  for_lines st (a ++ b) = (st' <- for_lines st a ;; for_lines st' b).
Proof.
  induction a as [|raw a IH]; intros b st; simpl; [reflexivity|].
  destruct (process_line st raw) as [e|st1]; simpl; [reflexivity | apply IH].
Qed.

Lemma flush_titles : forall ideas cur,
  map title (flush (ideas, cur))
  = map title ideas ++ filter truthy (pending cur).
Proof.
  intros ideas [c|]; unfold flush, pending; simpl.
  - destruct (truthy (title c)).
    + now rewrite map_app.
    + now rewrite app_nil_r.
  - now rewrite app_nil_r.
Qed.

(** The titles flushed by the loop are the titles of the opening lines. *)
Lemma for_lines_titles : forall lines ideas cur st',
  for_lines (ideas, cur) lines = inr st' ->
  map title (flush st')
  = map title ideas
    ++ filter truthy
         (pending cur
          ++ map opening_title (filter opens_block (map strip lines))).
Proof.
  induction lines as [|raw rest IH]; intros ideas cur st' H; simpl in H.
  - injection H as <-. simpl. rewrite app_nil_r. apply flush_titles.
  - simpl. destruct (opens_block (strip raw)) eqn:Ho.
    + rewrite process_line_opening in H by assumption. simpl in H.
      apply IH in H. rewrite H, flush_titles. simpl map.
      rewrite <- app_assoc. f_equal.
      rewrite (filter_app truthy (pending cur)). f_equal.
    + destruct (process_line_other ideas cur raw Ho) as [cur' [Hp Ht]].
      rewrite Hp in H. simpl in H. apply IH in H. rewrite H.
      unfold pending. now rewrite Ht.
Qed.

Lemma collect_titles : forall lines ideas,
  collect lines = inr ideas -> map title ideas = opening_titles lines.
Proof.
  intros lines ideas H. unfold collect in H.
  destruct (for_lines init lines) as [e|st] eqn:Hl; simpl in H; [discriminate|].
  injection H as <-. apply for_lines_titles in Hl. exact Hl.
Qed.

Lemma filter_truthy_nonempty : forall l,
  Forall (fun t : pystr => t <> []) (filter truthy l).
Proof.
  intro l. apply Forall_forall. intros t Hin.
  apply filter_In in Hin. now apply truthy_true.
Qed.

Lemma collect_nonempty_titles : forall lines ideas,
  collect lines = inr ideas -> Forall (fun i => title i <> []) ideas.
Proof.
  intros lines ideas H. apply collect_titles in H.
  pose proof (filter_truthy_nonempty
                (map opening_title (filter opens_block (map strip lines)))) as F.
  fold (opening_titles lines) in F. rewrite <- H in F.
  rewrite Forall_forall in F. apply Forall_forall. intros i Hi.
  apply F. now apply in_map.
Qed.

Lemma no_opening_titles : forall lines,
  Forall (fun raw => opens_block (strip raw) = false) lines ->
  opening_titles lines = [].
Proof.
  intros lines H. unfold opening_titles.
  induction H as [|raw rest Hr _ IH]; simpl; [reflexivity|].
  now rewrite Hr.
Qed.

(** What the parser returns, from what the loop collected. *)
Lemma parse_of_collect : forall response log ideas,
  collect (lines_of response) = inr ideas ->
  parse_ideas_response response log
  = (log, match ideas with [] => [fallback response] | _ :: _ => ideas end).
Proof.
  intros response log ideas H. unfold parse_ideas_response, parse_body.
  rewrite H. simpl. now destruct ideas.
Qed.

(** The lines of a block without a title change nothing that is kept. *)
Lemma untitled_block_lines : forall body ideas c,
  title c = [] ->
  Forall (fun raw => opens_block (strip raw) = false) body ->
  exists c', for_lines (ideas, Some c) body = inr (ideas, Some c')
             /\ title c' = [].
Proof.
  induction body as [|raw body IH]; intros ideas c Ht Hb; simpl.
  - now exists c.
  - inversion Hb as [|? ? Hr Hb']; subst.
    destruct (process_line_other ideas (Some c) raw Hr) as [cur' [Hp Hc]].
    rewrite Hp. simpl. destruct cur' as [c'|]; simpl in Hc; [|discriminate].
    injection Hc as Hc. apply IH; [congruence | assumption].
Qed.

Lemma untitled_block_end : forall rest ideas c st0,
  title c = [] ->
  flush st0 = ideas ->
  at_block_boundary rest ->
  (st <- for_lines (ideas, Some c) rest ;; ret (flush st))
  = (st <- for_lines st0 rest ;; ret (flush st)).
Proof.
  intros [|o rest] ideas c st0 Ht Hf Hb; simpl.
  - unfold flush at 1. simpl. rewrite Ht. simpl. now rewrite Hf.
  - simpl in Hb. rewrite !process_line_opening by assumption. simpl.
    unfold flush at 1. simpl. rewrite Ht. simpl. now rewrite Hf.
Qed.

Lemma untitled_block_dropped : forall pre open body rest,
  opens_block (strip open) = true ->
  opening_title (strip open) = [] ->
  Forall (fun raw => opens_block (strip raw) = false) body ->
  at_block_boundary rest ->
  collect (pre ++ open :: body ++ rest) = collect (pre ++ rest).
Proof.
  intros pre open body rest Ho Ht Hb Hr. unfold collect.
  rewrite !for_lines_app.
  destruct (for_lines_ok pre init) as [st0 ->]. simpl.
  rewrite process_line_opening by assumption. simpl. rewrite Ht.
  rewrite for_lines_app.
  destruct (untitled_block_lines body (flush st0) (new_idea []) eq_refl Hb)
    as [c' [-> Hc']].
  simpl. now apply untitled_block_end.
Qed.

End Loop.

(** ** The properties of the specification *)

(** C1.  For every input text and every state of the logger,
    [parse_ideas_response] returns a result, and the result is not empty.
    It is the value of the [try] block when the block returns, and the
    value of the [except] block when the block raises; the [except] block
    turns every exception into the single fallback record, whose
    description is the trimmed input. *)
Theorem parse_total_nonempty : forall response log,
  (exists log' ideas,
     parse_ideas_response response log = (log', ideas) /\ ideas <> [])
  /\ (forall e,
        snd (handler response e log)
        = [mkIdea (str "Travel Recommendations") (strip response) [] []])
  /\ ((exists ideas,
         parse_body response = inr ideas
         /\ parse_ideas_response response log = (log, ideas))
      \/ (exists e,
            parse_body response = inl e
            /\ parse_ideas_response response log = handler response e log)).
Proof.
  intros response log. split; [|split].
  - unfold parse_ideas_response.
    destruct (parse_body_ok response) as [ideas [-> Hne]].
    now exists log, ideas.
  - intro e. reflexivity.
  - unfold parse_ideas_response.
    destruct (parse_body response) as [e|ideas] eqn:Hb.
    + right. now exists e.
    + left. now exists ideas.
Qed.

(** C2.  When no line of the input, as the loop sees it (cut at line
    feeds and trimmed), starts with one of "1." to "5." and contains a
    colon, the parser returns exactly the fallback record: title "Travel
    Recommendations", the trimmed input as description, no highlight and
    an empty duration.  For the empty input the description is empty. *)
Theorem fallback_without_opening_line :
  (forall response log,
     Forall (fun raw => opens_block (strip raw) = false) (lines_of response) ->
     parse_ideas_response response log
     = (log, [mkIdea (str "Travel Recommendations") (strip response) [] []]))
  /\ (forall log,
        parse_ideas_response [] log
        = (log, [mkIdea (str "Travel Recommendations") [] [] []])).
Proof.
  assert (H : forall response log,
     Forall (fun raw => opens_block (strip raw) = false) (lines_of response) ->
     parse_ideas_response response log = (log, [fallback response])).
  { intros response log Hno.
    destruct (collect_ok (lines_of response)) as [ideas Hc].
    rewrite (parse_of_collect _ _ _ Hc).
    apply collect_titles in Hc. rewrite (no_opening_titles _ Hno) in Hc.
    now destruct ideas. }
  split.
  - exact H.
  - intro log. apply (H [] log). repeat constructor.
Qed.

Lemma fallback_without_opening_line_witness :
  let response := str "Visit Lisbon in spring." ++ nl ++
                  str "  1. Explore the old town" ++ nl ++
                  str "Note: book early  " in
  Forall (fun raw => opens_block (strip raw) = false) (lines_of response)
  /\ parse_ideas_response response []
     = ([], [mkIdea (str "Travel Recommendations")
                    (str "Visit Lisbon in spring." ++ nl ++
                     str "  1. Explore the old town" ++ nl ++
                     str "Note: book early")
                    [] []]).
Proof.
  intro response.
  assert (Hno : Forall (fun raw => opens_block (strip raw) = false)
                       (lines_of response)).
  { vm_compute. repeat constructor. }
  split; [exact Hno|].
  exact (proj1 fallback_without_opening_line response [] Hno).
Defined.

(** C3, as amended.  A line that opens a block gives the new idea the text
    after the first colon of the line, trimmed, as its title; when nothing
    but white space follows that colon, the title is the empty text. *)
Theorem opening_line_title : forall st before after,
  ~ In colon before ->
  opens_block (before ++ colon :: after) = true ->
  dispatch st (before ++ colon :: after)
  = inr (flush st, Some (mkIdea (strip after) [] [] [])).
Proof.
  intros st before after Hn Ho.
  rewrite dispatch_opening by assumption.
  unfold opening_title, after_colon. now rewrite cut_app.
Qed.

Lemma opening_line_title_witness :
  ~ In colon (str "2. Trip")
  /\ opens_block (str "2. Trip" ++ colon :: []) = true
  /\ dispatch init (str "2. Trip" ++ colon :: [])
     = inr ([], Some (mkIdea [] [] [] [])).
Proof.
  assert (Hn : ~ In colon (str "2. Trip")).
  { apply contains_false. reflexivity. }
  assert (Ho : opens_block (str "2. Trip" ++ colon :: []) = true).
  { reflexivity. }
  split; [exact Hn|]. split; [exact Ho|].
  exact (opening_line_title init (str "2. Trip") [] Hn Ho).
Defined.

(** C3, as stated, fails: the line "2. Trip:" opens a block and has no text
    after its colon, and the title of the new idea is empty, not the
    line. *)
Lemma opening_line_title_not_line :
  opens_block (str "2. Trip:") = true
  /\ after_colon (str "2. Trip:") = []
  /\ title_after init (str "2. Trip:") = Some []
  /\ title_after init (str "2. Trip:") <> Some (str "2. Trip:").
Proof.
  repeat split; try reflexivity. vm_compute. discriminate.
Qed.

Lemma opens_block_iff : forall line,
  opens_block line = true
  <-> (exists p rest,
         In p [str "1."; str "2."; str "3."; str "4."; str "5."]
         /\ line = p ++ rest)
      /\ In colon line.
Proof.
  intro line. unfold opens_block. rewrite andb_true_iff.
  rewrite startswith_any_iff, contains_In. reflexivity.
Qed.

Lemma opens_new_block_iff : forall line,
  opens_new_block line <-> opens_block line = true.
Proof.
  intro line. split.
  - intros [t H]. destruct (opens_block line) eqn:Ho; [reflexivity|].
    specialize (H init). unfold dispatch in H. rewrite Ho in H.
    simpl in H. discriminate.
  - intro Ho. exists (opening_title line). intro st.
    now apply dispatch_opening.
Qed.

(** C4.  A line opens a new block exactly when it starts with one of the
    literal prefixes "1.", "2.", "3.", "4.", "5." and contains a colon;
    any other line leaves the collected ideas and the title in progress
    alone.  The line "1. Explore the old town" opens no block. *)
Theorem opening_condition :
  (forall line,
     (opens_new_block line
      <-> (exists p rest,
             In p [str "1."; str "2."; str "3."; str "4."; str "5."]
             /\ line = p ++ rest)
          /\ In colon line)
     /\ (opens_new_block line \/ keeps_block line))
  /\ ~ opens_new_block (str "1. Explore the old town")
  /\ keeps_block (str "1. Explore the old town").
Proof.
  split; [|split].
  - intro line. split.
    + rewrite opens_new_block_iff. apply opens_block_iff.
    + destruct (opens_block line) eqn:Ho.
      * left. now apply opens_new_block_iff.
      * right. intros ideas cur. now apply dispatch_other.
  - rewrite opens_new_block_iff. vm_compute. discriminate.
  - intros ideas cur. now apply dispatch_other.
Qed.

(** C5.  An idea in progress is appended, when a block opens and at the end
    of the input, only when its title is not empty; every record the
    parser returns has a title that is not empty; and the titles of the
    records are the titles of the opening lines, in the order of these
    lines (or the parser returns the fallback record, when no opening line
    has a title). *)
Theorem records_titled_in_order :
  (forall st,
     flush st = fst st
     \/ exists c, snd st = Some c /\ title c <> []
                  /\ flush st = fst st ++ [c])
  /\ (forall response log,
        let ideas := snd (parse_ideas_response response log) in
        Forall (fun i => title i <> []) ideas
        /\ (map title ideas = opening_titles (lines_of response)
            \/ (opening_titles (lines_of response) = []
                /\ ideas = [mkIdea (str "Travel Recommendations")
                                   (strip response) [] []]))).
Proof.
  split.
  - intros [ideas [c|]]; unfold flush; simpl; [|now left].
    destruct (truthy (title c)) eqn:Ht; [|now left].
    right. exists c. repeat split. now apply truthy_true.
  - intros response log ideas. subst ideas.
    destruct (collect_ok (lines_of response)) as [ideas Hc].
    rewrite (parse_of_collect _ _ _ Hc). simpl.
    pose proof (collect_nonempty_titles _ _ Hc) as Hne.
    pose proof (collect_titles _ _ Hc) as Ht.
    destruct ideas as [|i ideas].
    + split.
      * constructor; [discriminate | constructor].
      * right. split; [now rewrite <- Ht | reflexivity].
    + split; [assumption | now left].
Qed.

(** C6.  The example of eight lines is parsed into two records: "Scenic
    drives" with its description, the two highlights "Lighthouse at
    sunset" and "Local seafood tasting" and the duration "5 days", then
    "Peaceful cabins" with its description, the duration "3 days" and no
    highlight. *)
Theorem example_parsed : forall log,
  length (lines_of example_input) = 8%nat
  /\ parse_ideas_response example_input log
     = (log,
        [ mkIdea (str "Scenic drives")
                 (str "Drive along the coast visiting small towns.")
                 [str "Lighthouse at sunset"; str "Local seafood tasting"]
                 (str "5 days");
          mkIdea (str "Peaceful cabins")
                 (str "Stay in a secluded cabin.")
                 []
                 (str "3 days") ]).
Proof.
  intro log. split; [reflexivity | apply example_runs].
Qed.

(** A labelled line starts with a letter and so opens no block. *)
Lemma labelled_not_opening : forall line a label,
  53 < a ->
  startswith (lower line) (a :: label) = true ->
  opens_block line = false.
Proof.
  intros line a label Ha H. unfold opens_block.
  destruct (startswith_any line numbered) eqn:Hs; [|reflexivity].
  exfalso. apply startswith_any_iff in Hs.
  destruct Hs as [p [r [Hin ->]]].
  assert (Hd : exists d p', p = d :: p' /\ 49 <= d <= 53).
  { simpl in Hin.
    destruct Hin as [<-|[<-|[<-|[<-|[<-|[]]]]]];
      eexists; eexists; (split; [reflexivity | simpl; lia]). }
  destruct Hd as [d [p' [-> Hd]]].
  simpl in H. unfold lower_char in H.
  replace ((65 <=? d) && (d <=? 90)) with false in H
    by (symmetry; apply andb_false_iff; left; apply N.leb_gt; lia).
  replace (d =? 304) with false in H by (symmetry; apply N.eqb_neq; lia).
  replace (d =? 8490) with false in H by (symmetry; apply N.eqb_neq; lia).
  simpl in H. apply andb_true_iff in H. destruct H as [H _].
  apply N.eqb_eq in H. lia.
Qed.

(** C7.  In a block, a line that starts with "description:", whatever the
    case of its letters, sets the description to the text after the first
    colon, trimmed: the description accumulated so far is replaced, and
    the other fields and the collected ideas stay as they are. *)
Theorem description_replaced : forall ideas c before after,
  ~ In colon before ->
  startswith (lower (before ++ colon :: after)) (str "description:") = true ->
  dispatch (ideas, Some c) (before ++ colon :: after)
  = inr (ideas,
         Some (mkIdea (title c) (strip after) (highlights c) (duration c))).
Proof.
  intros ideas c before after Hn Hd.
  unfold dispatch.
  rewrite (labelled_not_opening _ 100 (str "escription:")) by (reflexivity || exact Hd).
  simpl snd. unfold component. rewrite Hd.
  rewrite split1_app by assumption. reflexivity.
Qed.

Lemma description_replaced_witness :
  let c := mkIdea (str "Scenic drives") (str "Drive along the coast. And more.")
                  [str "Lighthouse"] (str "5 days") in
  ~ In colon (str "DeScRiPtIoN")
  /\ startswith (lower (str "DeScRiPtIoN" ++ colon :: str " Stay: in a cabin."))
                (str "description:") = true
  /\ dispatch ([], Some c) (str "DeScRiPtIoN" ++ colon :: str " Stay: in a cabin.")
     = inr ([], Some (mkIdea (str "Scenic drives") (str "Stay: in a cabin.")
                             [str "Lighthouse"] (str "5 days"))).
Proof.
  intro c.
  assert (Hn : ~ In colon (str "DeScRiPtIoN")).
  { apply contains_false. reflexivity. }
  assert (Hd : startswith
                 (lower (str "DeScRiPtIoN" ++ colon :: str " Stay: in a cabin."))
                 (str "description:") = true).
  { reflexivity. }
  split; [exact Hn|]. split; [exact Hd|].
  exact (description_replaced [] c (str "DeScRiPtIoN")
           (str " Stay: in a cabin.") Hn Hd).
Defined.

(** C8.  While a block is open and its description is still empty, a line
    that opens no block, carries none of the labels "description:",
    "highlight" and "duration:" and does not start with "-" changes
    nothing: the idea in progress keeps its four fields and the collected
    ideas stay as they are. *)
Theorem unlabelled_line_dropped : forall ideas c line,
  description c = [] ->
  opens_block line = false ->
  startswith (lower line) (str "description:") = false ->
  startswith (lower line) (str "highlight") = false ->
  startswith (lower line) (str "duration:") = false ->
  startswith line (str "-") = false ->
  dispatch (ideas, Some c) line = inr (ideas, Some c).
Proof.
  intros ideas c line Hd Ho H1 H2 H3 H4.
  unfold dispatch. rewrite Ho. simpl snd. unfold component.
  rewrite H1, H2, H3, Hd. change [dash] with (str "-"). rewrite H4.
  reflexivity.
Qed.

Lemma unlabelled_line_dropped_witness :
  let c := mkIdea (str "Scenic drives") [] [str "Lighthouse"] (str "5 days") in
  dispatch ([], Some c) (str "Some random note") = inr ([], Some c).
Proof.
  intro c.
  apply (unlabelled_line_dropped [] c (str "Some random note"));
    reflexivity.
Defined.

(** C9.  The result of the parser depends on the input text alone, not on
    the state of the logger, and the call leaves the logger as it was:
    nothing is logged, since the [try] block raises nothing. *)
Theorem parse_pure : forall response log1 log2,
  snd (parse_ideas_response response log1)
  = snd (parse_ideas_response response log2)
  /\ fst (parse_ideas_response response log1) = log1.
Proof.
  intros response log1 log2. unfold parse_ideas_response.
  destruct (parse_body_ok response) as [ideas [-> _]]. split; reflexivity.
Qed.

(** C10, as amended.  A block-opening line with nothing but white space
    after its first colon starts an idea with an empty title.  That idea
    is never appended: the ideas collected from the text are those
    collected from the text without the line and the lines of its block,
    so these lines appear in no parsed record.  The parser returns these
    records when there are some, and the fallback record otherwise. *)
Theorem untitled_block_discarded : forall response log pre open body rest,
  lines_of response = pre ++ open :: body ++ rest ->
  opens_block (strip open) = true ->
  opening_title (strip open) = [] ->
  Forall (fun raw => opens_block (strip raw) = false) body ->
  at_block_boundary rest ->
  (forall st,
     process_line st open = inr (flush st, Some (mkIdea [] [] [] [])))
  /\ collect (lines_of response) = collect (pre ++ rest)
  /\ match collect (pre ++ rest) with
     | inr (i :: ideas) =>
         parse_ideas_response response log = (log, i :: ideas)
     | _ =>
         parse_ideas_response response log
         = (log, [mkIdea (str "Travel Recommendations")
                         (strip response) [] []])
     end.
Proof.
  intros response log pre open body rest Hl Ho Ht Hb Hr.
  assert (Hc : collect (lines_of response) = collect (pre ++ rest)).
  { rewrite Hl. now apply untitled_block_dropped. }
  split; [|split].
  - intro st. rewrite process_line_opening by assumption. now rewrite Ht.
  - exact Hc.
  - destruct (collect (pre ++ rest)) as [e|ideas] eqn:Hp.
    + destruct (collect_ok (pre ++ rest)) as [ideas Hi]. congruence.
    + rewrite (parse_of_collect _ _ _ Hc). now destruct ideas.
Qed.

Lemma untitled_block_discarded_witness :
  let response := str "1. Coast: Scenic drives" ++ nl ++
                  str "Description: Drive along the coast." ++ nl ++
                  str "2. Trip:" ++ nl ++
                  str "Description: Never seen." ++ nl ++
                  str "- Hidden" ++ nl ++
                  str "3. Hills: Peaceful cabins" in
  collect (lines_of response)
  = collect [str "1. Coast: Scenic drives";
             str "Description: Drive along the coast.";
             str "3. Hills: Peaceful cabins"]
  /\ parse_ideas_response response []
     = ([], [mkIdea (str "Scenic drives") (str "Drive along the coast.") [] [];
             mkIdea (str "Peaceful cabins") [] [] []]).
Proof.
  intro response.
  assert (Hb : Forall (fun raw => opens_block (strip raw) = false)
                      [str "Description: Never seen."; str "- Hidden"]).
  { repeat constructor. }
  pose proof (untitled_block_discarded response []
                [str "1. Coast: Scenic drives";
                 str "Description: Drive along the coast."]
                (str "2. Trip:")
                [str "Description: Never seen."; str "- Hidden"]
                [str "3. Hills: Peaceful cabins"]
                eq_refl eq_refl eq_refl Hb eq_refl) as [_ [Hc Hp]].
  split; [exact Hc | exact Hp].
Defined.

(** C10, as stated, fails when no other block gives a record: the lines of
    the block without a title come back in the description of the
    fallback record. *)
Lemma untitled_block_in_fallback :
  let response := str "2. Trip:" ++ nl ++ str "Description: foo" in
  opens_block (str "2. Trip:") = true
  /\ opening_title (str "2. Trip:") = []
  /\ lines_of response = [str "2. Trip:"; str "Description: foo"]
  /\ snd (parse_ideas_response response [])
     = [mkIdea (str "Travel Recommendations") response [] []]
  /\ appears_in (str "Description: foo")
                (snd (parse_ideas_response response [])).
Proof.
  intro response. repeat split; try reflexivity.
  exists (mkIdea (str "Travel Recommendations") response [] []).
  split; [now left|].
  right. left. exists (str "2. Trip:" ++ nl), []. reflexivity.
Qed.

(** ** Whole runs on small texts *)

(** A second "description:" line replaces the first, continuation lines
    included. *)
Example description_twice :
  snd (parse_ideas_response
         (str "1. Coast: Scenic drives" ++ nl ++
          str "Description: First text" ++ nl ++
          str "goes on" ++ nl ++
          str "description: Second text") [])
  = [mkIdea (str "Scenic drives") (str "Second text") [] []].
Proof. reflexivity. Qed.

(** An unlabelled line right after the opening line is dropped; once the
    description is set, such a line is appended to it, and a "-" line is a
    highlight all the same. *)
Example unlabelled_lines :
  snd (parse_ideas_response
         (str "1. Coast: Scenic drives" ++ nl ++
          str "Some random note" ++ nl ++
          str "Description: Drive" ++ nl ++
          str "along the coast" ++ nl ++
          str "- Lighthouse") [])
  = [mkIdea (str "Scenic drives") (str "Drive along the coast")
            [str "Lighthouse"] []].
Proof. reflexivity. Qed.

(** ** More about [strip] *)

Section StripFacts.

Lemma lstrip_spaces : forall ws s,
  forallb isspace ws = true -> lstrip (ws ++ s) = lstrip s.
Proof.
  induction ws as [|c ws IH]; intros s H; simpl; [reflexivity|].
  simpl in H. apply andb_true_iff in H. destruct H as [Hc Hws].
  rewrite Hc. now apply IH.
Qed.

Lemma lstrip_all_spaces : forall ws,
  forallb isspace ws = true -> lstrip ws = [].
Proof.
  intros ws H. rewrite <- (app_nil_r ws). now rewrite lstrip_spaces.
Qed.

Lemma lstrip_nil_spaces : forall s,
  lstrip s = [] -> forallb isspace s = true.
Proof.
  induction s as [|c s IH]; simpl; [reflexivity|].
  destruct (isspace c); [exact IH | discriminate].
Qed.

(** What [lstrip] returns starts with no white space. *)
Lemma lstrip_head : forall s c t, lstrip s = c :: t -> isspace c = false.
Proof.
  induction s as [|a s IH]; intros c t H; simpl in H; [discriminate|].
  destruct (isspace a) eqn:Ha.
  - now apply IH with t.
  - injection H as <- _. exact Ha.
Qed.

Lemma lstrip_fixed : forall c t, isspace c = false -> lstrip (c :: t) = c :: t.
Proof. intros c t H. simpl. now rewrite H. Qed.

Lemma lstrip_app : forall s x, lstrip s <> [] -> lstrip (s ++ x) = lstrip s ++ x.
Proof.
  induction s as [|c s IH]; intros x H; simpl in *; [congruence|].
  destruct (isspace c); [now apply IH | reflexivity].
Qed.

Lemma lstrip_idem : forall s, lstrip (lstrip s) = lstrip s.
Proof.
  intro s. destruct (lstrip s) as [|c t] eqn:H; [reflexivity|].
  apply lstrip_fixed. now apply lstrip_head with s t.
Qed.

Lemma rstrip_idem : forall s, rstrip (rstrip s) = rstrip s.
Proof.
  intro s. unfold rstrip. now rewrite rev_involutive, lstrip_idem.
Qed.

Lemma rstrip_spaces : forall s ws,
  forallb isspace ws = true -> rstrip (s ++ ws) = rstrip s.
Proof.
  intros s ws H. unfold rstrip. rewrite rev_app_distr.
  rewrite lstrip_spaces; [reflexivity|].
  rewrite forallb_forall in *. intros c Hc. apply H. now apply in_rev.
Qed.

Lemma rstrip_cons : forall c t,
  isspace c = false -> rstrip (c :: t) = c :: rstrip t.
Proof.
  intros c t H. unfold rstrip. simpl.
  destruct (lstrip (rev t)) as [|a l] eqn:Hl.
  - rewrite lstrip_spaces by now apply lstrip_nil_spaces.
    simpl. now rewrite H.
  - rewrite lstrip_app by congruence. rewrite Hl.
    rewrite rev_app_distr. reflexivity.
Qed.

Lemma lstrip_rstrip_fixed : forall s, lstrip s = s -> lstrip (rstrip s) = rstrip s.
Proof.
  intros [|c t] H; [reflexivity|].
  assert (Hc : isspace c = false) by now apply lstrip_head with (c :: t) t.
  rewrite rstrip_cons by assumption. now apply lstrip_fixed.
Qed.

Lemma lstrip_strip : forall s, lstrip (strip s) = strip s.
Proof. intro s. apply lstrip_rstrip_fixed, lstrip_idem. Qed.

Lemma rstrip_strip : forall s, rstrip (strip s) = strip s.
Proof. intro s. apply rstrip_idem. Qed.

(** Trimming twice is trimming once. *)
Lemma strip_idem : forall s, strip (strip s) = strip s.
Proof.
  intro s. unfold strip at 1. now rewrite lstrip_strip, rstrip_strip.
Qed.

(** White space around a text does not change what [strip] returns. *)
Lemma strip_spaces : forall ws1 s ws2,
  forallb isspace ws1 = true -> forallb isspace ws2 = true ->
  strip (ws1 ++ s ++ ws2) = strip s.
Proof.
  intros ws1 s ws2 H1 H2. unfold strip. rewrite lstrip_spaces by assumption.
  destruct (lstrip s) as [|c t] eqn:Hs.
  - rewrite lstrip_all_spaces; [reflexivity|].
    rewrite forallb_app. now rewrite (lstrip_nil_spaces _ Hs).
  - rewrite lstrip_app by congruence. rewrite Hs.
    now apply rstrip_spaces.
Qed.

Lemma trimmed_strip : forall s, trimmed (strip s).
Proof. intro s. apply strip_idem. Qed.

Lemma trimmed_lstrip : forall s, trimmed s -> lstrip s = s.
Proof. intros s H. rewrite <- H. apply lstrip_strip. Qed.

Lemma trimmed_rstrip : forall s, trimmed s -> rstrip s = s.
Proof. intros s H. rewrite <- H. apply rstrip_strip. Qed.

(** Two trimmed texts that are not empty, with anything between them, make
    a trimmed text. *)
Lemma trimmed_app : forall a m b,
  trimmed a -> trimmed b -> a <> [] -> b <> [] -> trimmed (a ++ m ++ b).
Proof.
  intros a m b Ha Hb Hna Hnb. unfold trimmed, strip.
  assert (Hl : lstrip (a ++ m ++ b) = a ++ m ++ b).
  { rewrite lstrip_app; rewrite (trimmed_lstrip _ Ha); [reflexivity | assumption]. }
  rewrite Hl. unfold rstrip.
  assert (Hr : lstrip (rev b) = rev b).
  { pose proof (trimmed_rstrip _ Hb) as H. unfold rstrip in H.
    rewrite <- H at 2. now rewrite rev_involutive. }
  replace (rev (a ++ m ++ b)) with (rev b ++ rev (a ++ m))
    by (rewrite (app_assoc a m b); symmetry; apply rev_app_distr).
  rewrite lstrip_app.
  - rewrite Hr, <- rev_app_distr, rev_involutive. now rewrite <- app_assoc.
  - rewrite Hr. intro E. apply Hnb.
    rewrite <- (rev_involutive b), E. reflexivity.
Qed.

End StripFacts.

(** ** More about the loop *)

Section LoopFacts.

Lemma flush_prefix : forall p ideas cur,
  flush (p ++ ideas, cur) = p ++ flush (ideas, cur).
Proof.
  intros p ideas [c|]; unfold flush; simpl; [|reflexivity].
  destruct (truthy (title c)); [now rewrite app_assoc | reflexivity].
Qed.

(** The ideas already collected are carried along untouched. *)
Lemma process_line_prefix : forall p ideas cur raw,
  process_line (p ++ ideas, cur) raw
  = (st <- process_line (ideas, cur) raw ;; ret (p ++ fst st, snd st)).
Proof.
  intros p ideas cur raw. destruct (opens_block (strip raw)) eqn:Ho.
  - rewrite !process_line_opening by assumption. simpl.
    now rewrite flush_prefix.
  - unfold process_line. destruct (truthy (strip raw)); [|reflexivity].
    unfold dispatch. rewrite Ho. simpl. destruct cur as [c|]; [|reflexivity].
    now destruct (component c (strip raw)).
Qed.

Lemma for_lines_prefix : forall lines p ideas cur,
  for_lines (p ++ ideas, cur) lines
  = (st <- for_lines (ideas, cur) lines ;; ret (p ++ fst st, snd st)).
Proof.
  induction lines as [|raw rest IH]; intros p ideas cur; simpl; [reflexivity|].
  rewrite process_line_prefix.
  destruct (process_line (ideas, cur) raw) as [e|[ideas1 cur1]]; simpl;
    [reflexivity | apply IH].
Qed.

Lemma for_lines_no_block : forall lines ideas,
  Forall (fun raw => opens_block (strip raw) = false) lines ->
  for_lines (ideas, None) lines = inr (ideas, None).
Proof.
  induction lines as [|raw rest IH]; intros ideas H; simpl; [reflexivity|].
  inversion H as [|? ? Hr Hrest]; subst.
  unfold process_line, dispatch. rewrite Hr.
  destruct (truthy (strip raw)); simpl; now apply IH.
Qed.

Lemma process_line_strip : forall st raw,
  process_line st (strip raw) = process_line st raw.
Proof. intros st raw. unfold process_line. now rewrite strip_idem. Qed.

Lemma process_line_blank : forall st raw,
  truthy (strip raw) = false -> process_line st raw = inr st.
Proof. intros st raw H. unfold process_line. now rewrite H. Qed.

Lemma for_lines_normal : forall lines st,
  for_lines st lines = for_lines st (filter truthy (map strip lines)).
Proof.
  induction lines as [|raw rest IH]; intro st; simpl; [reflexivity|].
  destruct (truthy (strip raw)) eqn:Ht.
  - simpl. rewrite process_line_strip.
    destruct (process_line st raw); simpl; [reflexivity | apply IH].
  - rewrite process_line_blank by assumption. simpl. apply IH.
Qed.

(** The tests a labelled line and a bullet pass and fail. *)
Lemma highlight_tests : forall line,
  startswith (lower line) (str "highlight") = true ->
  opens_block line = false
  /\ startswith (lower line) (str "description:") = false.
Proof.
  intros line H. split.
  - now apply (labelled_not_opening line 104 (str "ighlight")).
  - apply startswith_inv in H. destruct H as [r ->]. reflexivity.
Qed.

Lemma duration_tests : forall line,
  startswith (lower line) (str "duration:") = true ->
  opens_block line = false
  /\ startswith (lower line) (str "description:") = false
  /\ startswith (lower line) (str "highlight") = false.
Proof.
  intros line H. split; [|split].
  - now apply (labelled_not_opening line 100 (str "uration:")).
  - apply startswith_inv in H. destruct H as [r ->]. reflexivity.
  - apply startswith_inv in H. destruct H as [r ->]. reflexivity.
Qed.

Lemma bullet_tests : forall line,
  startswith line (str "-") = true ->
  opens_block line = false
  /\ startswith (lower line) (str "description:") = false
  /\ startswith (lower line) (str "highlight") = false
  /\ startswith (lower line) (str "duration:") = false.
Proof.
  intros line H. apply startswith_inv in H. destruct H as [r ->].
  repeat split; reflexivity.
Qed.

Lemma dispatch_bullet : forall ideas c line,
  startswith line (str "-") = true ->
  dispatch (ideas, Some c) line
  = inr (ideas, Some (append_highlight c (strip (from1 line)))).
Proof.
  intros ideas c line H.
  destruct (bullet_tests line H) as [Ho [H1 [H2 H3]]].
  unfold dispatch. rewrite Ho. simpl snd. unfold component.
  rewrite H1, H2, H3. change [dash] with (str "-"). rewrite H.
  rewrite andb_false_r. reflexivity.
Qed.

Lemma dispatch_continuation : forall ideas c line,
  description c <> [] ->
  unlabelled line = true ->
  dispatch (ideas, Some c) line
  = inr (ideas, Some (set_description c (description c ++ [space] ++ line))).
Proof.
  intros ideas c line Hd H. unfold unlabelled in H.
  repeat (apply andb_true_iff in H; destruct H as [H ?]).
  repeat match goal with
         | E : negb _ = true |- _ => apply negb_true_iff in E
         end.
  unfold dispatch. rewrite H. simpl snd. unfold component.
  change [dash] with (str "-").
  repeat match goal with
         | E : startswith _ _ = false |- _ => rewrite E
         end.
  apply truthy_true in Hd. rewrite Hd. reflexivity.
Qed.

(** The texts the loop stores are trimmed. *)
Lemma component_trimmed : forall c line c',
  idea_trimmed c -> trimmed line -> line <> [] ->
  component c line = inr c' -> idea_trimmed c'.
Proof.
  intros c line c' [Ht [Hd [Hh Hu]]] Hl Hne. unfold component.
  destruct (startswith (lower line) (str "description:")) eqn:E1.
  { rewrite (index_labelled line (str "description:") eq_refl E1). simpl.
    intro H. injection H as <-. repeat split; simpl; try assumption.
    apply trimmed_strip. }
  destruct (startswith (lower line) (str "highlight")) eqn:E2.
  { destruct (contains colon line) eqn:Ec.
    - rewrite (index_contains _ Ec). simpl.
      intro H. injection H as <-. repeat split; simpl; try assumption.
      apply Forall_app. split; [assumption|].
      constructor; [apply trimmed_strip | constructor].
    - simpl. intro H. injection H as <-. repeat split; simpl; try assumption.
      apply Forall_app. split; [assumption|].
      constructor; [assumption | constructor]. }
  destruct (startswith (lower line) (str "duration:")) eqn:E3.
  { rewrite (index_labelled line (str "duration:") eq_refl E3). simpl.
    intro H. injection H as <-. repeat split; simpl; try assumption.
    apply trimmed_strip. }
  destruct (truthy (description c) && negb (startswith line [dash])) eqn:E4.
  { simpl. intro H. injection H as <-. repeat split; simpl; try assumption.
    apply andb_true_iff in E4. destruct E4 as [E4 _].
    apply truthy_true in E4.
    now apply (trimmed_app (description c) [space] line). }
  destruct (startswith line [dash]).
  - simpl. intro H. injection H as <-. repeat split; simpl; try assumption.
    apply Forall_app. split; [assumption|].
    constructor; [apply trimmed_strip | constructor].
  - simpl. intro H. injection H as <-. now repeat split.
Qed.

Lemma flush_trimmed : forall st,
  state_trimmed st -> Forall idea_trimmed (flush st).
Proof.
  intros [ideas [c|]] [Hi Hc]; unfold flush; simpl in *; [|assumption].
  destruct (truthy (title c)); [|assumption].
  apply Forall_app. split; [assumption | now constructor].
Qed.

Lemma new_idea_trimmed : forall t, trimmed t -> idea_trimmed (new_idea t).
Proof.
  intros t Ht. repeat split; simpl; try assumption; try reflexivity.
  constructor.
Qed.

Lemma process_line_trimmed : forall st raw st',
  state_trimmed st -> process_line st raw = inr st' -> state_trimmed st'.
Proof.
  intros st raw st' Hst. unfold process_line.
  destruct (truthy (strip raw)) eqn:Ht.
  - destruct (opens_block (strip raw)) eqn:Ho.
    + rewrite dispatch_opening by assumption. intro H. injection H as <-.
      split; simpl.
      * now apply flush_trimmed.
      * apply new_idea_trimmed. apply trimmed_strip.
    + unfold dispatch. rewrite Ho. destruct st as [ideas [c|]]; simpl.
      * destruct Hst as [Hi Hc]. simpl in Hi, Hc.
        destruct (component c (strip raw)) as [e|c1] eqn:Hcomp; simpl;
          [discriminate|].
        intro H. injection H as <-. split; simpl; [assumption|].
        apply (component_trimmed c (strip raw)); try assumption.
        -- apply trimmed_strip.
        -- now apply truthy_true.
      * intro H. injection H as <-. exact Hst.
  - intro H. injection H as <-. exact Hst.
Qed.

Lemma for_lines_trimmed : forall lines st st',
  state_trimmed st -> for_lines st lines = inr st' -> state_trimmed st'.
Proof.
  induction lines as [|raw rest IH]; intros st st' Hst; simpl.
  - intro H. injection H as <-. exact Hst.
  - destruct (process_line st raw) as [e|st1] eqn:Hp; simpl; [discriminate|].
    apply IH. now apply (process_line_trimmed st raw).
Qed.

Lemma collect_trimmed : forall lines ideas,
  collect lines = inr ideas -> Forall idea_trimmed ideas.
Proof.
  intros lines ideas. unfold collect.
  destruct (for_lines init lines) as [e|st] eqn:Hl; simpl; [discriminate|].
  intro H. injection H as <-. apply flush_trimmed.
  apply (for_lines_trimmed lines init); [|assumption].
  split; simpl; [constructor | exact I].
Qed.

End LoopFacts.

(** ** Further properties of the parser *)

(** X1.  A line labelled "highlight", whatever the case of its letters and
    whatever follows the label, adds one highlight after those already
    there and changes nothing else: the trimmed text after the first colon
    of the line, or the whole line when it has no colon. *)
Theorem highlight_appended : forall ideas c line,
  startswith (lower line) (str "highlight") = true ->
  dispatch (ideas, Some c) line
  = inr (ideas,
         Some (mkIdea (title c) (description c)
                      (highlights c
                       ++ [if contains colon line
                           then strip (after_colon line) else line])
                      (duration c))).
Proof.
  intros ideas c line H. destruct (highlight_tests line H) as [Ho H1].
  unfold dispatch. rewrite Ho. simpl snd. unfold component. rewrite H1, H.
  destruct (contains colon line) eqn:Hc.
  - now rewrite (index_contains _ Hc).
  - reflexivity.
Qed.

Lemma highlight_appended_witness :
  let c := mkIdea (str "Scenic drives") [] [str "Lighthouse"] [] in
  dispatch ([], Some c) (str "HIGHLIGHTS include: Seafood: fresh")
  = inr ([], Some (mkIdea (str "Scenic drives") []
                          [str "Lighthouse"; str "Seafood: fresh"] []))
  /\ dispatch ([], Some c) (str "Highlights")
     = inr ([], Some (mkIdea (str "Scenic drives") []
                             [str "Lighthouse"; str "Highlights"] [])).
Proof.
  intro c. split.
  - exact (highlight_appended [] c (str "HIGHLIGHTS include: Seafood: fresh")
             eq_refl).
  - exact (highlight_appended [] c (str "Highlights") eq_refl).
Defined.

(** X2.  In a block, a run of lines that start with "-" adds one highlight
    per line, in the order of the lines and after the highlights already
    there, whether the description is empty or not; each highlight is the
    line without its "-", trimmed.  Nothing else changes. *)
Theorem bullets_appended : forall ds ideas c,
  Forall (fun raw => startswith (strip raw) (str "-") = true) ds ->
  for_lines (ideas, Some c) ds
  = inr (ideas,
         Some (mkIdea (title c) (description c)
                      (highlights c
                       ++ map (fun raw => strip (from1 (strip raw))) ds)
                      (duration c))).
Proof.
  induction ds as [|raw ds IH]; intros ideas c H; simpl.
  - rewrite app_nil_r. now destruct c.
  - inversion H as [|? ? Hr Hds]; subst.
    unfold process_line.
    assert (Ht : truthy (strip raw) = true).
    { destruct (strip raw); [discriminate | reflexivity]. }
    rewrite Ht, dispatch_bullet by assumption. simpl.
    rewrite IH by assumption. simpl. now rewrite <- app_assoc.
Qed.

Lemma bullets_appended_witness :
  let c := mkIdea (str "Scenic drives") (str "Drive along the coast.")
                  [str "Lighthouse"] [] in
  for_lines ([], Some c) [str "- Seafood  "; str "  -Old town"; str "-"]
  = inr ([], Some (mkIdea (str "Scenic drives") (str "Drive along the coast.")
                          [str "Lighthouse"; str "Seafood"; str "Old town"; []]
                          [])).
Proof.
  intro c.
  apply (bullets_appended [str "- Seafood  "; str "  -Old town"; str "-"] [] c).
  repeat constructor.
Defined.

(** X3.  In a block, a line that starts with "duration:", whatever the
    case of its letters, sets the duration to the text after the first
    colon, trimmed, in place of the duration set before; the other fields
    and the collected ideas stay as they are. *)
Theorem duration_replaced : forall ideas c before after,
  ~ In colon before ->
  startswith (lower (before ++ colon :: after)) (str "duration:") = true ->
  dispatch (ideas, Some c) (before ++ colon :: after)
  = inr (ideas,
         Some (mkIdea (title c) (description c) (highlights c) (strip after))).
Proof.
  intros ideas c before after Hn H.
  destruct (duration_tests _ H) as [Ho [H1 H2]].
  unfold dispatch. rewrite Ho. simpl snd. unfold component.
  rewrite H1, H2, H. rewrite split1_app by assumption. reflexivity.
Qed.

Lemma duration_replaced_witness :
  let c := mkIdea (str "Scenic drives") [] [] (str "5 days") in
  dispatch ([], Some c) (str "Duration" ++ colon :: str " 3 days: or more")
  = inr ([], Some (mkIdea (str "Scenic drives") [] [] (str "3 days: or more"))).
Proof.
  intro c.
  apply (duration_replaced [] c (str "Duration") (str " 3 days: or more")).
  - apply contains_false. reflexivity.
  - reflexivity.
Defined.

(** X4.  Once the description of a block is not empty, a run of lines
    without label and without "-" is added to it: each line that is not
    blank is trimmed and appended after one space, in the order of the
    lines.  Nothing else changes. *)
Theorem continuation_joined : forall conts ideas c,
  description c <> [] ->
  Forall (fun raw => unlabelled (strip raw) = true) conts ->
  for_lines (ideas, Some c) conts
  = inr (ideas,
         Some (mkIdea (title c)
                      (description c
                       ++ concat (map (fun line => space :: line)
                                      (filter truthy (map strip conts))))
                      (highlights c) (duration c))).
Proof.
  induction conts as [|raw conts IH]; intros ideas c Hd H; simpl.
  - rewrite app_nil_r. now destruct c.
  - inversion H as [|? ? Hr Hc]; subst.
    destruct (truthy (strip raw)) eqn:Ht.
    + unfold process_line. rewrite Ht.
      rewrite dispatch_continuation by assumption. simpl.
      rewrite IH; try assumption.
      * simpl. now rewrite <- app_assoc.
      * simpl. destruct (description c); discriminate.
    + rewrite process_line_blank by assumption. simpl. now apply IH.
Qed.

Lemma continuation_joined_witness :
  let c := mkIdea (str "Scenic drives") (str "Drive") [] [] in
  for_lines ([], Some c) [str "  along the coast"; str "   "; str "10. and back"]
  = inr ([], Some (mkIdea (str "Scenic drives")
                          (str "Drive along the coast 10. and back") [] [])).
Proof.
  intro c.
  apply (continuation_joined
           [str "  along the coast"; str "   "; str "10. and back"] [] c).
  - discriminate.
  - repeat constructor.
Defined.

(** X5.  The lines before the first line that opens a block are ignored:
    the ideas collected from a text are those collected from the text
    without them. *)
Theorem preamble_ignored : forall pre rest,
  Forall (fun raw => opens_block (strip raw) = false) pre ->
  collect (pre ++ rest) = collect rest.
Proof.
  intros pre rest H. unfold collect. rewrite for_lines_app.
  unfold init. now rewrite for_lines_no_block.
Qed.

Lemma preamble_ignored_witness :
  collect [str "Here are some ideas:"; str "- a bullet"; str "Duration: 2 days";
           str "1. Coast: Scenic drives"]
  = collect [str "1. Coast: Scenic drives"].
Proof.
  apply (preamble_ignored
           [str "Here are some ideas:"; str "- a bullet"; str "Duration: 2 days"]
           [str "1. Coast: Scenic drives"]).
  repeat constructor.
Defined.

(** X6.  Only the trimmed form of a line matters, and a blank line does
    not matter at all: the ideas collected from some lines are those
    collected from their trimmed forms without the empty ones. *)
Theorem lines_normalised : forall lines,
  collect lines = collect (filter truthy (map strip lines)).
Proof.
  intro lines. unfold collect. now rewrite <- for_lines_normal.
Qed.

(** X7.  White space around the response does not matter: the parser
    returns the same records, and leaves the logger alone, for a text and
    for the text with white space before and after it. *)
Theorem surrounding_space_ignored : forall ws1 response ws2 log,
  forallb isspace ws1 = true ->
  forallb isspace ws2 = true ->
  parse_ideas_response (ws1 ++ response ++ ws2) log
  = parse_ideas_response response log.
Proof.
  intros ws1 response ws2 log H1 H2.
  unfold parse_ideas_response, handler, parse_body, lines_of, fallback.
  now rewrite strip_spaces.
Qed.

Lemma surrounding_space_ignored_witness :
  parse_ideas_response
    (str "  " ++ nl ++ (str "1. Coast: Scenic drives") ++ nl ++ str "  ") []
  = parse_ideas_response (str "1. Coast: Scenic drives") [].
Proof.
  apply (surrounding_space_ignored (str "  " ++ nl)
           (str "1. Coast: Scenic drives") (nl ++ str "  ") []);
    reflexivity.
Defined.

(** X8.  Blocks are parsed one by one: when the second part of a text is
    empty or begins with a line that opens a block, the ideas collected
    from the whole text are those of the first part followed by those of
    the second part. *)
Theorem blocks_compose : forall a b,
  at_block_boundary b ->
  exists ia ib,
    collect a = inr ia /\ collect b = inr ib
    /\ collect (a ++ b) = inr (ia ++ ib).
Proof.
  intros a b Hb. unfold collect. rewrite for_lines_app.
  destruct (for_lines_ok a init) as [sa ->]. simpl.
  destruct b as [|o b]; simpl.
  - exists (flush sa), []. now rewrite app_nil_r.
  - simpl in Hb. rewrite !process_line_opening by assumption. simpl.
    change (flush init) with (@nil Idea).
    pose proof (for_lines_prefix b (flush sa) []
                  (Some (new_idea (opening_title (strip o))))) as P.
    rewrite app_nil_r in P. rewrite P.
    destruct (for_lines_ok b ([], Some (new_idea (opening_title (strip o)))))
      as [[ideas cur] ->].
    simpl. exists (flush sa), (flush (ideas, cur)).
    now rewrite flush_prefix.
Qed.

Lemma blocks_compose_witness :
  collect ([str "1. Coast: Scenic drives"; str "- Lighthouse"]
           ++ [str "2. Hills: Peaceful cabins"; str "Duration: 3 days"])
  = inr ([mkIdea (str "Scenic drives") [] [str "Lighthouse"] []]
         ++ [mkIdea (str "Peaceful cabins") [] [] (str "3 days")]).
Proof.
  destruct (blocks_compose
              [str "1. Coast: Scenic drives"; str "- Lighthouse"]
              [str "2. Hills: Peaceful cabins"; str "Duration: 3 days"]
              eq_refl) as [ia [ib [Ha [Hb H]]]].
  injection Ha as <-. injection Hb as <-. exact H.
Defined.

(** X9.  Every text of every record the parser returns is trimmed: the
    title, the description, each highlight and the duration have no white
    space at either end. *)
Theorem fields_trimmed : forall response log,
  Forall (fun i => strip (title i) = title i
                   /\ strip (description i) = description i
                   /\ Forall (fun h => strip h = h) (highlights i)
                   /\ strip (duration i) = duration i)
         (snd (parse_ideas_response response log)).
Proof.
  intros response log.
  destruct (collect_ok (lines_of response)) as [ideas Hc].
  rewrite (parse_of_collect _ _ _ Hc). simpl.
  destruct ideas as [|i ideas].
  - constructor; [|constructor]. repeat split; simpl; try reflexivity.
    + apply strip_idem.
    + constructor.
  - exact (collect_trimmed _ _ Hc).
Qed.

(** X10.  The parser returns at least one record and, when the text has
    lines that open a block, at most one record per such line. *)
Theorem record_count : forall response log,
  (1 <= length (snd (parse_ideas_response response log))
   <= Nat.max 1 (length (opening_lines (lines_of response))))%nat.
Proof.
  intros response log.
  destruct (collect_ok (lines_of response)) as [ideas Hc].
  rewrite (parse_of_collect _ _ _ Hc). simpl.
  apply collect_titles in Hc.
  assert (Hl : (length ideas
                <= length (opening_lines (lines_of response)))%nat).
  { rewrite <- (length_map title ideas), Hc. unfold opening_titles.
    etransitivity; [apply filter_length_le|]. now rewrite length_map. }
  destruct (length (opening_lines (lines_of response))) as [|n];
    destruct ideas as [|i ideas]; simpl in *; lia.
Qed.

(** ** The formatters *)

Section FormatterFacts.

Context {value : Type} `{Runtime value}.

Lemma str_eqb_eq : forall s t, str_eqb s t = true <-> s = t.
Proof.
  induction s as [|a s IH]; intros [|b t]; simpl; split; try congruence.
  - intro E. apply andb_true_iff in E. destruct E as [E1 E2].
    apply N.eqb_eq in E1. apply IH in E2. congruence.
  - intro E. injection E as -> ->. rewrite N.eqb_refl. now apply IH.
Qed.

Lemma str_eqb_refl : forall s, str_eqb s s = true.
Proof. intro s. now apply str_eqb_eq. Qed.

Lemma get_In : forall (d : dict value) k v, get d k = Some v -> In (k, v) d.
Proof.
  induction d as [|[k' v'] d IH]; intros k v E; simpl in E; [discriminate|].
  destruct (str_eqb k' k) eqn:Ek.
  - apply str_eqb_eq in Ek. injection E as ->. subst. now left.
  - right. now apply IH.
Qed.

Lemma get_None : forall (d : dict value) k,
  get d k = None -> ~ In k (map fst d).
Proof.
  induction d as [|[k' v'] d IH]; intros k E; simpl in *; [tauto|].
  destruct (str_eqb k' k) eqn:Ek; [discriminate|].
  intros [E1|E2].
  - subst. rewrite str_eqb_refl in Ek. discriminate.
  - now apply (IH k).
Qed.

Lemma In_get : forall (d : dict value) k v,
  well_formed d -> In (k, v) d -> get d k = Some v.
Proof.
  induction d as [|[k' v'] d IH]; intros k v W Hin; [contradiction|].
  unfold well_formed in W. simpl in W. inversion W as [|? ? Hn Hd]; subst.
  simpl. destruct Hin as [E|Hin].
  - injection E as -> ->. now rewrite str_eqb_refl.
  - destruct (str_eqb k' k) eqn:Ek.
    + apply str_eqb_eq in Ek. subst. exfalso. apply Hn.
      change k with (fst (k, v)). now apply in_map.
    + now apply IH.
Qed.

(** Looking a key up does not depend on the order of insertion. *)
Lemma get_permutation : forall (d1 d2 : dict value) k,
  well_formed d1 -> Permutation d1 d2 -> get d1 k = get d2 k.
Proof.
  intros d1 d2 k W P.
  assert (W2 : well_formed d2).
  { unfold well_formed. apply Permutation_NoDup with (map fst d1);
      [now apply Permutation_map | exact W]. }
  destruct (get d1 k) as [v1|] eqn:E1.
  - symmetry. apply In_get; [exact W2|].
    apply Permutation_in with d1; [exact P | now apply get_In].
  - destruct (get d2 k) as [v2|] eqn:E2; [|reflexivity].
    exfalso. apply (get_None _ _ E1).
    apply get_In in E2. apply Permutation_sym in P.
    apply (Permutation_in _ P) in E2.
    change k with (fst (k, v2)). now apply in_map.
Qed.

Lemma scalar_item_get : forall (p1 p2 : dict value) key label items,
  get p1 key = get p2 key ->
  scalar_item p1 key label items = scalar_item p2 key label items.
Proof. intros p1 p2 key label items E. unfold scalar_item. now rewrite E. Qed.

Lemma joined_item_get : forall (p1 p2 : dict value) key label items,
  get p1 key = get p2 key ->
  joined_item p1 key label items = joined_item p2 key label items.
Proof. intros p1 p2 key label items E. unfold joined_item. now rewrite E. Qed.

(** The loop over the items looks at the other keys only. *)
Lemma other_items_filter : forall (entries : dict value) items,
  other_items entries items
  = other_items (filter (fun kv => negb (known (fst kv))) entries) items.
Proof.
  induction entries as [|[key v] rest IH]; intro items; simpl; [reflexivity|].
  destruct (known key) eqn:Ek; simpl.
  - apply IH.
  - rewrite Ek. simpl. destruct (is_list v).
    + destruct (comma_join v); [reflexivity | apply IH].
    + apply IH.
Qed.

Lemma scalar_item_false : forall (p : dict value) key label items,
  Forall (fun kv => truth (snd kv) = false) p ->
  scalar_item p key label items = items.
Proof.
  intros p key label items F. unfold scalar_item.
  destruct (get p key) as [v|] eqn:E; [|reflexivity].
  apply get_In in E. rewrite Forall_forall in F.
  specialize (F _ E). simpl in F. now rewrite F.
Qed.

Lemma joined_item_false : forall (p : dict value) key label items,
  Forall (fun kv => truth (snd kv) = false) p ->
  joined_item p key label items = inr items.
Proof.
  intros p key label items F. unfold joined_item.
  destruct (get p key) as [v|] eqn:E; [|reflexivity].
  apply get_In in E. rewrite Forall_forall in F.
  specialize (F _ E). simpl in F. now rewrite F.
Qed.

Lemma other_items_known : forall (p : dict value) items,
  Forall (fun kv => known (fst kv) = true) p ->
  other_items p items = inr items.
Proof.
  induction p as [|[key v] rest IH]; intros items F; simpl; [reflexivity|].
  inversion F as [|? ? Hk Hrest]; subst. simpl in Hk. rewrite Hk. simpl.
  now apply IH.
Qed.

Lemma join_starts : forall sep item rest,
  exists tail, join sep (item :: rest) = item ++ tail.
Proof.
  intros sep item [|next rest].
  - exists []. simpl. now rewrite app_nil_r.
  - exists (sep ++ join sep (next :: rest)). reflexivity.
Qed.

End FormatterFacts.

(** X11.  Without knowledge items the context is the sentence "No specific
    travel knowledge available."; with items it starts with "- ", the mark
    of the first item, so that the sentence stands for no items only. *)
Theorem knowledge_context_cases :
  forall (value : Type) (R : Runtime value) (kb_results : list (dict value)),
    (kb_results = []
     /\ format_knowledge_context kb_results
        = str "No specific travel knowledge available.")
    \/ (kb_results <> []
        /\ startswith (format_knowledge_context kb_results) (str "- ") = true
        /\ format_knowledge_context kb_results
           <> str "No specific travel knowledge available.").
Proof.
  intros value R [|r rest]; [left; now split | right].
  assert (S : startswith (format_knowledge_context (r :: rest)) (str "- ")
              = true).
  { unfold format_knowledge_context. simpl map.
    destruct (join_starts (nl ++ nl) (knowledge_item r)
                (map knowledge_item rest)) as [tail ->].
    unfold knowledge_item. rewrite <- app_assoc. apply startswith_app. }
  split; [discriminate|]. split; [exact S|].
  intro E. rewrite E in S. discriminate.
Qed.

(** X12.  Preferences that are not empty but hold only known keys with
    false values (an empty text, zero, an empty list) give the empty
    text, not the sentence "No specific preferences provided.". *)
Theorem preferences_all_false :
  forall (value : Type) (R : Runtime value) (preferences : dict value),
    preferences <> [] ->
    Forall (fun kv => known (fst kv) = true /\ truth (snd kv) = false)
           preferences ->
    format_preferences preferences = inr [].
Proof.
  intros value R preferences Hne F.
  assert (Fk : Forall (fun kv => known (fst kv) = true) preferences).
  { eapply Forall_impl; [|exact F]. now intros kv [Hk _]. }
  assert (Ft : Forall (fun kv => truth (snd kv) = false) preferences).
  { eapply Forall_impl; [|exact F]. now intros kv [_ Ht]. }
  unfold format_preferences. destruct preferences as [|e rest]; [congruence|].
  rewrite !scalar_item_false by assumption.
  rewrite joined_item_false by assumption.
  rewrite !scalar_item_false by assumption.
  rewrite joined_item_false by assumption.
  now rewrite other_items_known.
Qed.

Lemma preferences_all_false_witness :
  format_preferences [(str "budget", Text []); (str "trip_duration", Int 0)]
  = inr [].
Proof.
  apply preferences_all_false.
  - discriminate.
  - repeat constructor.
Defined.

(** X13.  The known keys are reported in a fixed order, whatever their
    order in the request: two dictionaries with the same items, and the
    same order among the items with other keys, are formatted alike. *)
Theorem preferences_order :
  forall (value : Type) (R : Runtime value) (p1 p2 : dict value),
    well_formed p1 ->
    Permutation p1 p2 ->
    filter (fun kv => negb (known (fst kv))) p1
    = filter (fun kv => negb (known (fst kv))) p2 ->
    format_preferences p1 = format_preferences p2.
Proof.
  intros value R p1 p2 W P Hf.
  assert (G : forall k, get p1 k = get p2 k).
  { intro k. now apply get_permutation. }
  unfold format_preferences.
  destruct p1 as [|e1 r1].
  { apply Permutation_nil in P. now subst. }
  destruct p2 as [|e2 r2].
  { apply Permutation_sym, Permutation_nil in P. discriminate. }
  rewrite (scalar_item_get (e1 :: r1) (e2 :: r2) (str "budget")) by apply G.
  rewrite (scalar_item_get (e1 :: r1) (e2 :: r2) (str "accommodation_type"))
    by apply G.
  rewrite (scalar_item_get (e1 :: r1) (e2 :: r2) (str "trip_duration"))
    by apply G.
  rewrite (joined_item_get (e1 :: r1) (e2 :: r2) (str "interests")) by apply G.
  destruct (joined_item (e2 :: r2) (str "interests")) as [e|items];
    [reflexivity|].
  rewrite (scalar_item_get (e1 :: r1) (e2 :: r2) (str "travel_style"))
    by apply G.
  rewrite (joined_item_get (e1 :: r1) (e2 :: r2) (str "dietary_restrictions"))
    by apply G.
  destruct (joined_item (e2 :: r2) (str "dietary_restrictions")) as [e|items'];
    [reflexivity|].
  rewrite (other_items_filter (e1 :: r1)), (other_items_filter (e2 :: r2)).
  now rewrite Hf.
Qed.

Lemma preferences_order_witness :
  format_preferences
    [(str "group_size", Int 4); (str "interests", Text (str "ab"));
     (str "budget", Int 1500); (str "pace", Text (str "slow"))]
  = format_preferences
      [(str "budget", Int 1500); (str "group_size", Int 4);
       (str "pace", Text (str "slow")); (str "interests", Text (str "ab"))]
  /\ format_preferences
       [(str "budget", Int 1500); (str "group_size", Int 4);
        (str "pace", Text (str "slow")); (str "interests", Text (str "ab"))]
     = inr (str "Budget: 1500" ++ nl ++ str "Interests: a, b" ++ nl ++
            str "Group Size: 4" ++ nl ++ str "Pace: slow").
Proof.
  split; [|reflexivity].
  apply preferences_order.
  - unfold well_formed. simpl.
    repeat (constructor; [simpl; intuition discriminate|]). constructor.
  - apply perm_trans with
      [(str "group_size", Int 4); (str "budget", Int 1500);
       (str "interests", Text (str "ab")); (str "pace", Text (str "slow"))].
    + apply perm_skip. apply perm_swap.
    + apply perm_trans with
        [(str "budget", Int 1500); (str "group_size", Int 4);
         (str "interests", Text (str "ab")); (str "pace", Text (str "slow"))].
      * apply perm_swap.
      * do 2 apply perm_skip. apply perm_swap.
  - reflexivity.
Defined.

Lemma joined_item_fine :
  forall (value : Type) (R : Runtime value) (p : dict value) key label items,
    (exists items', joined_item p key label items = inr items')
    <-> (forall v, get p key = Some v -> truth v = true -> joinable v).
Proof.
  intros value R p key label items. unfold joined_item, joinable.
  destruct (get p key) as [v|].
  - destruct (truth v) eqn:T.
    + destruct (comma_join v) as [e|joined] eqn:J.
      * split.
        -- intros [items' E]. discriminate.
        -- intro F. destruct (F v eq_refl T) as [joined E].
           rewrite J in E. discriminate.
      * split; [|eauto]. intros _ v' E _. injection E as <-. eauto.
    + split; [|eauto]. intros _ v' E T'. injection E as <-. congruence.
  - split; [|eauto]. intros _ v' E. discriminate.
Qed.

Lemma other_items_fine :
  forall (value : Type) (R : Runtime value) (p : dict value) items,
    (exists items', other_items p items = inr items')
    <-> Forall (fun kv => known (fst kv) = false -> is_list (snd kv) = true ->
                          joinable (snd kv)) p.
Proof.
  intros value R. induction p as [|[key v] rest IH]; intro items; simpl.
  - split; [constructor | eauto].
  - destruct (known key) eqn:K; simpl.
    + rewrite IH. split.
      * intro F. constructor; [simpl; congruence | exact F].
      * intro F. now inversion F.
    + destruct (is_list v) eqn:L.
      * destruct (comma_join v) as [e|joined] eqn:J.
        -- split; [intros [items' E]; discriminate|].
           intro F. inversion F as [|? ? Hv _]; subst.
           destruct (Hv K L) as [joined E]. simpl in E.
           rewrite J in E. discriminate.
        -- rewrite IH. split.
           ++ intro F. constructor; [|exact F].
              intros _ _. exists joined. exact J.
           ++ intro F. now inversion F.
      * rewrite IH. split.
        -- intro F. constructor; [simpl; congruence | exact F].
        -- intro F. now inversion F.
Qed.

(** X14.  The formatter returns a text exactly when every value it joins
    can be joined: the values of "interests" and "dietary_restrictions"
    when they are true, and the lists under keys other than the six known
    ones.  Otherwise it raises the type error of [join]. *)
Theorem preferences_raise :
  forall (value : Type) (R : Runtime value) (preferences : dict value),
    ((exists text, format_preferences preferences = inr text)
     <-> joins_fine preferences)
    /\ ((exists text, format_preferences preferences = inr text)
        \/ format_preferences preferences = inl TypeError).
Proof.
  intros value R preferences. split.
  - unfold joins_fine, format_preferences.
    destruct preferences as [|e rest].
    { split; [|eauto]. intros _. repeat split; try discriminate. constructor. }
    set (p := e :: rest).
    rewrite <- (joined_item_fine value R p (str "interests") (str "Interests: ")
                  (scalar_item p (str "trip_duration") (str "Trip Duration: ")
                     (scalar_item p (str "accommodation_type")
                        (str "Accommodation Type: ")
                        (scalar_item p (str "budget") (str "Budget: ") [])))).
    destruct (joined_item p (str "interests")) as [e1|items1].
    { split; [intros [t E]; discriminate|]. intros [[i E] _]. discriminate. }
    rewrite <- (joined_item_fine value R p (str "dietary_restrictions")
                  (str "Dietary Restrictions: ")
                  (scalar_item p (str "travel_style") (str "Travel Style: ")
                     items1)).
    destruct (joined_item p (str "dietary_restrictions")) as [e2|items2].
    { split; [intros [t E]; discriminate|]. intros [_ [[i E] _]]. discriminate. }
    rewrite <- (other_items_fine value R p items2).
    destruct (other_items p items2) as [e3|items3].
    { split; [intros [t E]; discriminate|]. intros [_ [_ [i E]]]. discriminate. }
    split; [intros _; repeat split; eauto | intros _; eauto].
  - destruct (format_preferences preferences) as [[]|text]; eauto.
Qed.

Lemma lstrip_In : forall c s, In c (lstrip s) -> In c s.
Proof.
  induction s as [|a s IH]; simpl; [tauto|].
  destruct (isspace a); [intro Hin; right; now apply IH | tauto].
Qed.

Lemma strip_In : forall c s, In c (strip s) -> In c s.
Proof.
  intros c s Hin. unfold strip, rstrip in Hin.
  apply in_rev, lstrip_In, in_rev in Hin. now apply lstrip_In.
Qed.

Lemma split_no_sep : forall sep s, ~ In sep s -> split sep s = [s].
Proof.
  induction s as [|c s IH]; intro Hn; simpl; [reflexivity|].
  destruct (N.eqb_spec c sep) as [->|Hne].
  - exfalso. apply Hn. now left.
  - rewrite IH; [reflexivity|]. intro Hin. apply Hn. now right.
Qed.

(** X15.  When the call of the model fails with a message of one line,
    the parser turns the text [invoke_model] returns for the failure into
    the single fallback record: the caller gets one idea, "Travel
    Recommendations", whose description is the error text. *)
Theorem model_failure_parsed : forall message log,
  ~ In newline message ->
  parse_ideas_response (invoke_model (inl message)) log
  = (log, [mkIdea (str "Travel Recommendations")
                  (strip (str "Error generating response: " ++ message))
                  [] []]).
Proof.
  intros message log Hn. unfold invoke_model.
  set (text := str "Error generating response: " ++ message).
  assert (Hl : lines_of text = [strip text]).
  { unfold lines_of. apply split_no_sep. intro Hin.
    apply strip_In in Hin. unfold text in Hin.
    apply in_app_or in Hin. destruct Hin as [Hin|Hin]; [|contradiction].
    revert Hin. apply contains_false. reflexivity. }
  assert (Ho : opens_block (strip text) = false).
  { unfold strip, text.
    change (str "Error generating response: " ++ message)
      with (69 :: (str "rror generating response: " ++ message)).
    rewrite lstrip_fixed by reflexivity.
    rewrite rstrip_cons by reflexivity. reflexivity. }
  destruct (collect_ok (lines_of text)) as [ideas Hc].
  rewrite (parse_of_collect _ _ _ Hc).
  apply collect_titles in Hc.
  rewrite no_opening_titles in Hc.
  - now destruct ideas.
  - rewrite Hl. constructor; [|constructor]. now rewrite strip_idem.
Qed.

Lemma model_failure_parsed_witness :
  parse_ideas_response
    (invoke_model (inl (str "Read timeout on endpoint URL: 1. retry  "))) []
  = ([], [mkIdea (str "Travel Recommendations")
                 (str "Error generating response: Read timeout on endpoint URL: 1. retry")
                 [] []]).
Proof.
  apply (model_failure_parsed
           (str "Read timeout on endpoint URL: 1. retry  ") []).
  apply contains_false. reflexivity.
Defined.

Lemma block_lines_keep_title : forall body ideas c,
  Forall (fun raw => opens_block (strip raw) = false) body ->
  exists c', for_lines (ideas, Some c) body = inr (ideas, Some c')
             /\ title c' = title c.
Proof.
  induction body as [|raw body IH]; intros ideas c Hb; simpl.
  - now exists c.
  - inversion Hb as [|? ? Hr Hb']; subst.
    destruct (process_line_other ideas (Some c) raw Hr) as [cur' [Hp Hc]].
    rewrite Hp. simpl. destruct cur' as [c'|]; simpl in Hc; [|discriminate].
    injection Hc as Hc. destruct (IH ideas c' Hb') as [c2 [E T]].
    exists c2. split; [exact E | congruence].
Qed.

(** X16.  One block gives at most one record: the lines of a block, from
    its opening line to the line before the next opening line, give one
    record with the title of the opening line when this title is not
    empty, and no record when it is empty. *)
Theorem block_record : forall o body,
  opens_block (strip o) = true ->
  Forall (fun raw => opens_block (strip raw) = false) body ->
  (opening_title (strip o) <> []
   /\ exists c, collect (o :: body) = inr [c]
                /\ title c = opening_title (strip o))
  \/ (opening_title (strip o) = [] /\ collect (o :: body) = inr []).
Proof.
  intros o body Ho Hb. unfold collect. simpl.
  rewrite process_line_opening by assumption. simpl.
  destruct (block_lines_keep_title body (flush init)
              (new_idea (opening_title (strip o))) Hb) as [c [-> Ht]].
  simpl in Ht. simpl. unfold flush. simpl. rewrite Ht.
  destruct (opening_title (strip o)) as [|a t] eqn:E; simpl.
  - right. now split.
  - left. split; [discriminate|]. exists c. now split.
Qed.

Lemma block_record_witness :
  (opening_title (strip (str " 1. Coast: Scenic drives ")) <> []
   /\ exists c,
        collect [str " 1. Coast: Scenic drives "; str "Duration: 5 days"]
        = inr [c]
        /\ title c = opening_title (strip (str " 1. Coast: Scenic drives ")))
  \/ (opening_title (strip (str " 1. Coast: Scenic drives ")) = []
      /\ collect [str " 1. Coast: Scenic drives "; str "Duration: 5 days"]
         = inr []).
Proof.
  apply (block_record (str " 1. Coast: Scenic drives ")
           [str "Duration: 5 days"]).
  - reflexivity.
  - repeat constructor.
Defined.
